(** * Room synchronisation of the multiplayer arcade client (App.tsx)

    A shallow embedding of the room state machine found in the [App]
    component: the snapshot listener, the host's round-end arbitration, the
    lobby write paths (create / join / start / restart) and the throttled
    score report, together with the properties the specification states
    about them. *)

From Stdlib Require Import ZArith Lia.
From stdpp Require Import gmap strings list fin_maps pretty.

Open Scope Z_scope.

(** ** constants.ts *)

Definition INITIAL_LIVES : Z := 3.
Definition GAME_DURATION_MS : Z := 3 * 60 * 1000.
Definition MAX_PLAYERS_PER_ROOM : Z := 30.
Definition STORAGE_KEY_HIGHSCORE : string := "neon_rush_highscore".
Definition STORAGE_KEY_XP : string := "neon_rush_total_xp".
Definition STORAGE_KEY_LEVEL : string := "neon_rush_level".

(** Interval of the score throttle, the literal [2000] of
    [handleScoreUpdate]. *)
Definition SCORE_SYNC_INTERVAL_MS : Z := 2000.

(** ** types.ts

    The type declarations are not part of the sources at hand; the shapes
    below are the ones the code of [App] reads and writes. *)

(** Modelled from the spec: the [GameState] enum of types.ts (the
    LocalPhase of the specification). *)
Inductive GameState := MENU | LOBBY | PLAYING | SPECTATING | GAME_OVER.

(** Modelled from the spec: the room-level [status] string union. *)
Inductive RoomStatus := RoomWaiting | RoomPlaying | RoomFinished.

(** Modelled from the spec: the per-player [status] string union. *)
Inductive PlayerStatus := PReady | PPlaying | PCrashed | PFinished.

#[global] Instance GameState_eq_dec : EqDecision GameState.
Proof. solve_decision. Defined.
#[global] Instance RoomStatus_eq_dec : EqDecision RoomStatus.
Proof. solve_decision. Defined.
#[global] Instance PlayerStatus_eq_dec : EqDecision PlayerStatus.
Proof. solve_decision. Defined.

(** A numeric field that may be missing from the document ([undefined]),
    explicitly [null], or a number: [startTime] is absent in a freshly
    created room, [null] after a lobby restart and [Date.now()] after a
    match start. *)
Inductive JsOptNum := Undefined | Null | Num (n : Z).

#[global] Instance JsOptNum_eq_dec : EqDecision JsOptNum.
Proof. solve_decision. Defined.

(** JavaScript truthiness of such a field: only a non-zero number. *)
Definition truthyNum (t : JsOptNum) : bool :=
  match t with
  | Num n => negb (n =? 0)
  | Undefined | Null => false
  end.

(** Truthiness of a string: the empty string is falsy. *)
Definition truthyStr (s : string) : bool := bool_decide (s ≠ "").

(** Truthiness of [string | null]. *)
Definition truthyId (r : option string) : bool :=
  match r with
  | Some i => truthyStr i
  | None => false
  end.

(** Modelled from the spec: the [GameScore] interface of types.ts, with
    the four fields [App] reads and writes.  Numbers are integers here. *)
Record GameScore := mkScore {
  current : Z;
  best : Z;
  coins : Z;
  lives : Z
}.

(** Modelled from the spec: the PlayerEntry of section 3, as it sits in
    the document.  Dotted-path updates such as [players.<uid>.status]
    create the nested map when it is missing, so an entry may hold only
    some of its fields: every field is optional. *)
Record PlayerData := mkPlayer {
  p_uid : option string;
  p_displayName : option string;
  p_score : option Z;
  p_isHost : option bool;
  p_status : option PlayerStatus
}.

#[global] Instance PlayerData_eq_dec : EqDecision PlayerData.
Proof. solve_decision. Defined.

(** Modelled from the spec: the RoomRecord of section 3 ([RoomData] in
    types.ts). *)
Record RoomData := mkRoom {
  r_id : string;
  r_createdAt : Z;
  r_status : RoomStatus;
  r_startTime : JsOptNum;
  r_players : gmap string PlayerData
}.

#[global] Instance RoomData_eq_dec : EqDecision RoomData.
Proof. solve_decision. Defined.

(** [Object.keys] and [Object.values] of the players map; the order of
    the entries plays no part in what the code does with them. *)
Definition Object_keys (m : gmap string PlayerData) : list string :=
  (map_to_list m).*1.
Definition Object_values (m : gmap string PlayerData) : list PlayerData :=
  (map_to_list m).*2.

(** ** The shared document store (firebase/firestore)

    Modelled from the spec: the external key-document service of section 6,
    reduced to the one collection ['rooms'].  [getDoc] is [readOnce],
    [setDoc] the overwrite-capable create, [updateDoc] is [writePartial]
    with dotted field paths, applied independently per field. *)

(** One entry of the object handed to [updateDoc]: the field path with the
    value written there.  [SetPlayer u] is the path [players.<u>],
    [SetPlayerStatus u] is [players.<u>.status], [SetPlayerScore u] is
    [players.<u>.score]. *)
Inductive FieldUpdate :=
  | SetStatus (s : RoomStatus)
  | SetStartTime (t : JsOptNum)
  | SetPlayer (u : string) (p : PlayerData)
  | SetPlayerStatus (u : string) (s : PlayerStatus)
  | SetPlayerScore (u : string) (z : Z).

#[global] Instance FieldUpdate_eq_dec : EqDecision FieldUpdate.
Proof. solve_decision. Defined.

Definition emptyPlayer : PlayerData := mkPlayer None None None None None.

Definition withPStatus (s : PlayerStatus) (p : PlayerData) : PlayerData :=
  mkPlayer (p_uid p) (p_displayName p) (p_score p) (p_isHost p) (Some s).

Definition withPScore (z : Z) (p : PlayerData) : PlayerData :=
  mkPlayer (p_uid p) (p_displayName p) (Some z) (p_isHost p) (p_status p).

Definition withPlayers (m : gmap string PlayerData) (d : RoomData) : RoomData :=
  mkRoom (r_id d) (r_createdAt d) (r_status d) (r_startTime d) m.

(** The nested map at [players.<u>], created empty when missing. *)
Definition entryAt (u : string) (d : RoomData) : PlayerData :=
  default emptyPlayer (r_players d !! u).

Definition applyField (d : RoomData) (f : FieldUpdate) : RoomData :=
  match f with
  | SetStatus s =>
      mkRoom (r_id d) (r_createdAt d) s (r_startTime d) (r_players d)
  | SetStartTime t =>
      mkRoom (r_id d) (r_createdAt d) (r_status d) t (r_players d)
  | SetPlayer u p => withPlayers (<[u := p]> (r_players d)) d
  | SetPlayerStatus u s =>
      withPlayers (<[u := withPStatus s (entryAt u d)]> (r_players d)) d
  | SetPlayerScore u z =>
      withPlayers (<[u := withPScore z (entryAt u d)]> (r_players d)) d
  end.

Definition applyUpdates (d : RoomData) (ups : list FieldUpdate) : RoomData :=
  foldl applyField d ups.

Definition getDoc (st : gmap string RoomData) (id : string) : option RoomData :=
  st !! id.

Definition setDoc (st : gmap string RoomData) (id : string) (d : RoomData)
  : gmap string RoomData :=
  <[id := d]> st.

(** [updateDoc] rejects when the document does not exist. *)
Definition updateDoc (st : gmap string RoomData) (id : string)
    (ups : list FieldUpdate) : option (gmap string RoomData) :=
  match st !! id with
  | Some d => Some (<[id := applyUpdates d ups]> st)
  | None => None
  end.

(** ** React state and refs of the [App] component *)

(** The [useState] cells.  A handler closes over the values of one render
    (its captured state) and queues updates through the setters; the
    setters below act on the pending state. *)
Record AppState := mkApp {
  gameState : GameState;
  score : GameScore;
  totalXP : Z;
  level : Z;
  earnedXP : Z;
  userId : string;
  roomId : option string;
  roomData : option RoomData
}.

(** The [useRef] cells: read and written in place, never captured. *)
Record Refs := mkRefs {
  lastScoreSync : Z;
  latestScoreRef : GameScore
}.

(** The setters. *)
Definition setGameState (g : GameState) (s : AppState) : AppState :=
  mkApp g (score s) (totalXP s) (level s) (earnedXP s) (userId s) (roomId s)
    (roomData s).
Definition setScore (f : GameScore → GameScore) (s : AppState) : AppState :=
  mkApp (gameState s) (f (score s)) (totalXP s) (level s) (earnedXP s)
    (userId s) (roomId s) (roomData s).
Definition setTotalXP (x : Z) (s : AppState) : AppState :=
  mkApp (gameState s) (score s) x (level s) (earnedXP s) (userId s) (roomId s)
    (roomData s).
Definition setLevel (x : Z) (s : AppState) : AppState :=
  mkApp (gameState s) (score s) (totalXP s) x (earnedXP s) (userId s)
    (roomId s) (roomData s).
Definition setEarnedXP (x : Z) (s : AppState) : AppState :=
  mkApp (gameState s) (score s) (totalXP s) (level s) x (userId s) (roomId s)
    (roomData s).
Definition setRoomId (r : option string) (s : AppState) : AppState :=
  mkApp (gameState s) (score s) (totalXP s) (level s) (earnedXP s) (userId s)
    r (roomData s).
Definition setRoomData (d : option RoomData) (s : AppState) : AppState :=
  mkApp (gameState s) (score s) (totalXP s) (level s) (earnedXP s) (userId s)
    (roomId s) d.

(** What a handler does besides updating state and refs. *)
Inductive Effect :=
  | E_updateDoc (room : string) (ups : list FieldUpdate)
      (** a fire-and-forget [updateDoc] on [rooms/<room>] *)
  | E_audioStart
      (** [audioManager.init(); audioManager.startEngine()] *)
  | E_storageSet (key : string) (v : Z)
      (** [localStorage.setItem] *)
  | E_consoleError (msg : string)
  | E_alert (msg : string).

#[global] Instance Effect_eq_dec : EqDecision Effect.
Proof. solve_decision. Defined.

(** ** Game actions *)

(** [handleGameOver], with [c] the render it was created in and [st] the
    pending state. *)
Definition handleGameOver (c st : AppState) (finalScore : GameScore)
  : AppState * list Effect :=
  let xp := current finalScore / 100 + coins finalScore * 2 in
  let newTotalXP := totalXP c + xp in
  let newLevel := newTotalXP / 1000 + 1 in
  let st1 := setLevel newLevel (setTotalXP newTotalXP (setEarnedXP xp st)) in
  let e1 := [E_storageSet STORAGE_KEY_XP newTotalXP;
             E_storageSet STORAGE_KEY_LEVEL newLevel] in
  let '(st2, e2) :=
    if best (score c) <? current finalScore
    then (setScore (λ prev, mkScore (current prev) (current finalScore)
                              (coins prev) (lives prev)) st1,
          e1 ++ [E_storageSet STORAGE_KEY_HIGHSCORE (current finalScore)])
    else (st1, e1) in
  match roomId c with
  | Some rid =>
      if truthyStr rid && truthyStr (userId c) then
        let status := if 0 <? lives finalScore then PFinished else PCrashed in
        (setGameState SPECTATING st2,
         e2 ++ [E_updateDoc rid [SetPlayerScore (userId c) (current finalScore);
                                 SetPlayerStatus (userId c) status]])
      else (setGameState GAME_OVER st2, e2)
  | None => (setGameState GAME_OVER st2, e2)
  end.

(** [startGame]: the engine starts, the local score and the score ref are
    reset, and the phase becomes playing. *)
Definition startGame (c st : AppState) (r : Refs)
  : AppState * Refs * list Effect :=
  let initialScore := mkScore 0 (best (score c)) 0 INITIAL_LIVES in
  (setGameState PLAYING (setEarnedXP 0 (setScore (λ _, initialScore) st)),
   mkRefs (lastScoreSync r) initialScore,
   [E_audioStart]).

(** [handleScoreUpdate]: local score, the ref, and the throttled report. *)
Definition handleScoreUpdate (c st : AppState) (r : Refs) (now : Z)
    (newScore : GameScore) : AppState * Refs * list Effect :=
  let st1 := setScore (λ prev, mkScore (current newScore) (best prev)
                                 (coins newScore) (lives newScore)) st in
  let r1 := mkRefs (lastScoreSync r) newScore in
  match roomId c with
  | Some rid =>
      if truthyStr rid && truthyStr (userId c)
         && (SCORE_SYNC_INTERVAL_MS <? now - lastScoreSync r1)
      then (st1, mkRefs now (latestScoreRef r1),
            [E_updateDoc rid [SetPlayerScore (userId c) (current newScore)]])
      else (st1, r1, [])
  | None => (st1, r1, [])
  end.

(** ** The room listener *)

(** [data.players[userId]?.status] and [data.players[userId]?.isHost]. *)
Definition myStatus (uid : string) (data : RoomData) : option PlayerStatus :=
  r_players data !! uid ≫= p_status.
Definition myIsHost (uid : string) (data : RoomData) : bool :=
  match r_players data !! uid ≫= p_isHost with
  | Some true => true
  | _ => false
  end.

(** Block 1 of the callback: room status ['playing']. *)
Definition onRoomPlaying (c st : AppState) (r : Refs) (data : RoomData)
  : AppState * Refs * list Effect :=
  match r_status data with
  | RoomPlaying =>
      match myStatus (userId c) data with
      | Some PCrashed => (st, r, [])
      | Some PPlaying | Some PReady =>
          match gameState c with
          | LOBBY | SPECTATING | GAME_OVER => startGame c st r
          | _ => (st, r, [])
          end
      | _ => (st, r, [])
      end
  | _ => (st, r, [])
  end.

(** Block 2: room status ['finished']. *)
Definition onRoomFinished (c st : AppState) (r : Refs) (data : RoomData)
  : AppState * Refs * list Effect :=
  match r_status data with
  | RoomFinished =>
      match gameState c with
      | PLAYING =>
          let '(st', e) := handleGameOver c st (latestScoreRef r) in
          (st', r, e)
      | SPECTATING => (setGameState GAME_OVER st, r, [])
      | _ => (st, r, [])
      end
  | _ => (st, r, [])
  end.

(** Block 3: room status ['waiting']. *)
Definition onRoomWaiting (c st : AppState) (data : RoomData) : AppState :=
  match r_status data with
  | RoomWaiting =>
      match gameState c with
      | GAME_OVER | SPECTATING => setGameState LOBBY st
      | _ => st
      end
  | _ => st
  end.

(** Host logic: [timeIsUp], [activePlayersCount] and the decision. *)
Definition timeIsUp (now : Z) (data : RoomData) : bool :=
  match r_startTime data with
  | Num t => negb (t =? 0) && (GAME_DURATION_MS <? now - t)
  | Undefined | Null => false
  end.

Definition activePlayersCount (data : RoomData) : nat :=
  length (filter (λ p, p_status p = Some PPlaying)
            (Object_values (r_players data))).

Definition hostLogic (c : AppState) (rid : string) (now : Z) (data : RoomData)
  : list Effect :=
  if truthyStr (userId c) && myIsHost (userId c) data
     && bool_decide (r_status data = RoomPlaying)
  then
    if timeIsUp now data || bool_decide (activePlayersCount data = 0%nat)
    then [E_updateDoc rid [SetStatus RoomFinished]]
    else []
  else [].

(** The success callback of [onSnapshot] on [rooms/<rid>], created in
    render [c]; [snap] is [None] when [docSnap.exists()] is false. *)
Definition onSnapshotNext (c : AppState) (rid : string) (st : AppState)
    (r : Refs) (now : Z) (snap : option RoomData)
  : AppState * Refs * list Effect :=
  match snap with
  | Some data =>
      let st0 := setRoomData (Some data) st in
      let '(st1, r1, e1) := onRoomPlaying c st0 r data in
      let '(st2, r2, e2) := onRoomFinished c st1 r1 data in
      let st3 := onRoomWaiting c st2 data in
      (st3, r2, e1 ++ e2 ++ hostLogic c rid now data)
  | None => (st, r, [])
  end.

(** The error callback. *)
Definition onSnapshotError (st : AppState) : AppState * list Effect :=
  (setGameState MENU (setRoomId None st), [E_consoleError "Room sync error:"]).

(** The effect itself: without a room it clears [roomData] and subscribes
    to nothing; otherwise it subscribes to [rooms/<roomId>].  The result
    names the document listened to, if any. *)
Definition roomListener (c st : AppState) : AppState * option string :=
  match roomId c with
  | Some rid => if truthyStr rid then (st, Some rid)
                else (setRoomData None st, None)
  | None => (setRoomData None st, None)
  end.

(** A snapshot delivered to the listener installed by render [c]. *)
Definition deliver (c : AppState) (r : Refs) (now : Z)
    (snap : option RoomData) : AppState * Refs * list Effect :=
  match roomListener c c with
  | (st, Some rid) => onSnapshotNext c rid st r now snap
  | (st, None) => (st, r, [])
  end.

(** ** Lobby actions

    The [async] handlers await the store, so they are functions of the
    store.  Transport failures (the [catch] arms that only log) are outside
    the store model, except for [updateDoc] rejecting on a missing
    document. *)

(** The entry [handleCreateRoom] and [handleJoinRoom] write for the
    caller. *)
Definition newPlayer (uid playerName : string) (host : bool) : PlayerData :=
  mkPlayer (Some uid) (Some playerName) (Some 0) (Some host) (Some PReady).

(** [newRoomId] stands for the random six-character code, [now] for
    [Date.now()]. *)
Definition handleCreateRoom (c st : AppState) (store : gmap string RoomData)
    (newRoomId : string) (now : Z) (playerName : string)
  : AppState * gmap string RoomData * list Effect :=
  if negb (truthyStr (userId c)) then (st, store, [])
  else
    let newRoom :=
      mkRoom newRoomId now RoomWaiting Undefined
        {[ userId c := newPlayer (userId c) playerName true ]} in
    (setGameState LOBBY (setRoomId (Some newRoomId) st),
     setDoc store newRoomId newRoom, []).

(** [handleJoinRoom]: read, check capacity, check the status, write the
    own entry.  The write meets the store that was read: no other client
    writes between the two awaits. *)
Definition handleJoinRoom (c st : AppState) (store : gmap string RoomData)
    (id playerName : string)
  : AppState * gmap string RoomData * list Effect :=
  if negb (truthyStr (userId c)) then (st, store, [])
  else
    match getDoc store id with
    | Some data =>
        let currentPlayers := length (Object_keys (r_players data)) in
        if MAX_PLAYERS_PER_ROOM <=? Z.of_nat currentPlayers
        then (st, store, [E_alert "Room full wait for next round"])
        else
          match r_status data with
          | RoomPlaying => (st, store, [E_alert "Game in progress"])
          | _ =>
              match updateDoc store id
                      [SetPlayer (userId c)
                         (newPlayer (userId c) playerName false)]
              with
              | Some store' =>
                  (setGameState LOBBY (setRoomId (Some id) st), store', [])
              | None => (st, store, [E_consoleError "Error joining room:"])
              end
          end
    | None => (st, store, [E_alert "Room not found"])
    end.

(** [handleJoinRoom] with its two awaits apart: [getDoc] reads [store],
    and [updateDoc] meets [store'], the store as the other clients have
    left it in between. *)
Definition handleJoinRoom_interleaved (c st : AppState)
    (store store' : gmap string RoomData) (id playerName : string)
  : AppState * gmap string RoomData * list Effect :=
  if negb (truthyStr (userId c)) then (st, store', [])
  else
    match getDoc store id with
    | Some data =>
        let currentPlayers := length (Object_keys (r_players data)) in
        if MAX_PLAYERS_PER_ROOM <=? Z.of_nat currentPlayers
        then (st, store', [E_alert "Room full wait for next round"])
        else
          match r_status data with
          | RoomPlaying => (st, store', [E_alert "Game in progress"])
          | _ =>
              match updateDoc store' id
                      [SetPlayer (userId c)
                         (newPlayer (userId c) playerName false)]
              with
              | Some store'' =>
                  (setGameState LOBBY (setRoomId (Some id) st), store'', [])
              | None => (st, store', [E_consoleError "Error joining room:"])
              end
          end
    | None => (st, store', [E_alert "Room not found"])
    end.

(** The [forEach] over [Object.keys(roomData.players)] that fills the
    update object with the two per-player paths. *)
Definition resetPlayers (s : PlayerStatus) (pids : list string)
  : list FieldUpdate :=
  pids ≫= λ pid, [SetPlayerStatus pid s; SetPlayerScore pid 0].

(** The update objects of [handleStartMatch] and [handleRestartLobby],
    built from the caller's [roomData]. *)
Definition startMatchUpdates (now : Z) (rd : RoomData) : list FieldUpdate :=
  [SetStatus RoomPlaying; SetStartTime (Num now)]
  ++ resetPlayers PPlaying (Object_keys (r_players rd)).

Definition restartLobbyUpdates (rd : RoomData) : list FieldUpdate :=
  [SetStatus RoomWaiting; SetStartTime Null]
  ++ resetPlayers PReady (Object_keys (r_players rd)).

Definition handleStartMatch (c st : AppState) (store : gmap string RoomData)
    (now : Z) : AppState * gmap string RoomData * list Effect :=
  match roomId c, roomData c with
  | Some rid, Some rd =>
      if negb (truthyStr rid) then (st, store, [])
      else
        match updateDoc store rid (startMatchUpdates now rd) with
        | Some store' => (st, store', [])
        | None => (st, store, [E_consoleError "Error starting match:"])
        end
  | _, _ => (st, store, [])
  end.

Definition handleRestartLobby (c st : AppState) (store : gmap string RoomData)
  : AppState * gmap string RoomData * list Effect :=
  match roomId c, roomData c with
  | Some rid, Some rd =>
      if negb (truthyStr rid) then (st, store, [])
      else
        match updateDoc store rid (restartLobbyUpdates rd) with
        | Some store' => (st, store', [])
        | None => (st, store, [E_consoleError "Error restarting lobby:"])
        end
  | _, _ => (st, store, [])
  end.

Definition handleLeaveRoom (st : AppState) : AppState :=
  setGameState MENU (setRoomId None st).

Definition handleEnterLobby (st : AppState) : AppState :=
  setGameState LOBBY st.

(** The fire-and-forget writes of an effect list reach the store one by
    one; a rejected write is logged and dropped. *)
Definition commit (store : gmap string RoomData) (e : Effect)
  : gmap string RoomData :=
  match e with
  | E_updateDoc rid ups => default store (updateDoc store rid ups)
  | _ => store
  end.

Definition commitAll (store : gmap string RoomData) (es : list Effect)
  : gmap string RoomData :=
  foldl commit store es.

(** ** The client as an event loop

    One event at a time, a render after each.  The store a lobby action
    meets is part of the event: other clients write to it in between. *)
Inductive Event :=
  | EvSnapshot (now : Z) (snap : option RoomData)
  | EvSnapshotError
  | EvScoreUpdate (now : Z) (newScore : GameScore)
  | EvGameOver (finalScore : GameScore)
  | EvCreateRoom (store : gmap string RoomData) (newRoomId : string) (now : Z)
      (playerName : string)
  | EvJoinRoom (store : gmap string RoomData) (id playerName : string)
  | EvStartMatch (store : gmap string RoomData) (now : Z)
  | EvRestartLobby (store : gmap string RoomData)
  | EvLeaveRoom
  | EvEnterLobby
  | EvRestart
  | EvMenu.

(** The handler each event runs, as the JSX of [App] wires them; its
    closure is the render that precedes the event.  A callback of an
    earlier render that runs on a newer pending state is no step of this
    loop: the handlers take their closure apart from the pending state
    for that. *)
Definition step (st : AppState) (r : Refs) (ev : Event)
  : AppState * Refs * list Effect :=
  match ev with
  | EvSnapshot now snap => deliver st r now snap
  | EvSnapshotError =>
      match (roomListener st st).2 with
      | Some _ => let '(st', e) := onSnapshotError st in (st', r, e)
      | None => (st, r, [])
      end
  | EvScoreUpdate now newScore => handleScoreUpdate st st r now newScore
  | EvGameOver finalScore =>
      let '(st', e) := handleGameOver st st finalScore in (st', r, e)
  | EvCreateRoom store newRoomId now playerName =>
      let '(st', _, e) := handleCreateRoom st st store newRoomId now playerName
      in (st', r, e)
  | EvJoinRoom store id playerName =>
      let '(st', _, e) := handleJoinRoom st st store id playerName in (st', r, e)
  | EvStartMatch store now =>
      let '(st', _, e) := handleStartMatch st st store now in (st', r, e)
  | EvRestartLobby store =>
      let '(st', _, e) := handleRestartLobby st st store in (st', r, e)
  | EvLeaveRoom => (handleLeaveRoom st, r, [])
  | EvEnterLobby => (handleEnterLobby st, r, [])
  | EvRestart => startGame st st r
  | EvMenu => (setGameState MENU st, r, [])
  end.

(** The render that follows: the [score] effect copies the state into
    [latestScoreRef].  The listener effect is [roomListener] and is not
    run here. *)
Definition render (x : AppState * Refs * list Effect)
  : AppState * Refs * list Effect :=
  let '(st, r, e) := x in (st, mkRefs (lastScoreSync r) (score st), e).

(** The record of a run: for every event the state before, the event, the
    state after and the effects issued. *)
Fixpoint runClient (st : AppState) (r : Refs) (evs : list Event)
  : list (AppState * Event * AppState * list Effect) :=
  match evs with
  | [] => []
  | ev :: evs' =>
      let '(st', r', e) := render (step st r ev) in
      (st, ev, st', e) :: runClient st' r' evs'
  end.

(** Events by which the user enters a room. *)
Definition entersRoom (ev : Event) : Prop :=
  match ev with
  | EvCreateRoom _ _ _ _ | EvJoinRoom _ _ _ => True
  | _ => False
  end.

(** Calls of [onScoreUpdate] by the game canvas. *)
Definition isScoreUpdate (ev : Event) : Prop :=
  match ev with
  | EvScoreUpdate _ _ => True
  | _ => False
  end.

(** ** The view

    What [App] returns: the HUD inside the game container and the
    full-screen overlays, each mounted under its own condition. *)

(** The overlays of [App]; the props are left out. *)
Inductive Overlay := MainMenu | Lobby | SpectatorView | Leaderboard | GameOver.

(** [gameState === GameState.PLAYING && <HUD ... />]. *)
Definition hud (st : AppState) : bool :=
  match gameState st with PLAYING => true | _ => false end.

(** The full-screen overlays, one JSX expression after the other. *)
Definition overlays (st : AppState) : list Overlay :=
  (match gameState st with MENU => [MainMenu] | _ => [] end)
  ++ (match gameState st with LOBBY => [Lobby] | _ => [] end)
  ++ (match gameState st, roomData st with
      | SPECTATING, Some _ => [SpectatorView]
      | _, _ => []
      end)
  ++ (if match gameState st with GAME_OVER => true | _ => false end
         && truthyId (roomId st) && bool_decide (is_Some (roomData st))
      then [Leaderboard]
      else match gameState st with GAME_OVER => [GameOver] | _ => [] end).

(** * Vocabulary of the statements *)

(** ** Documents *)

(** What the two writes [players.<u>.status] and [players.<u>.score := 0]
    leave at an entry: the other fields stay. *)
Definition resetEntry (s : PlayerStatus) (p : PlayerData) : PlayerData :=
  mkPlayer (p_uid p) (p_displayName p) (Some 0) (p_isHost p) (Some s).

(** The state of a room between rounds: waiting, no start time, every
    entry ready with score 0. *)
Definition lobbyReset (d : RoomData) : Prop :=
  r_status d = RoomWaiting ∧ r_startTime d = Null
  ∧ ∀ u p, r_players d !! u = Some p →
           p_status p = Some PReady ∧ p_score p = Some 0.

(** The number of entries flagged host. *)
Definition hostCount (data : RoomData) : nat :=
  length (filter (λ p, p_isHost p = Some true)
            (Object_values (r_players data))).

(** No entry is flagged host. *)
Definition noHost (data : RoomData) : Prop :=
  ∀ u p, r_players data !! u = Some p → p_isHost p ≠ Some true.

(** The update lists the client hands to [updateDoc]: join, match start,
    lobby restart, score report, round result, host's round end. *)
Inductive appUpdate : list FieldUpdate → Prop :=
  | au_join (uid playerName : string) :
      appUpdate [SetPlayer uid (newPlayer uid playerName false)]
  | au_start (now : Z) (rd : RoomData) : appUpdate (startMatchUpdates now rd)
  | au_restart (rd : RoomData) : appUpdate (restartLobbyUpdates rd)
  | au_score (uid : string) (z : Z) : appUpdate [SetPlayerScore uid z]
  | au_result (uid : string) (z : Z) (s : PlayerStatus) :
      appUpdate [SetPlayerScore uid z; SetPlayerStatus uid s]
  | au_finish : appUpdate [SetStatus RoomFinished].

(** One update of the document, by any client. *)
Definition roomUpdate (d d' : RoomData) : Prop :=
  ∃ ups, appUpdate ups ∧ d' = applyUpdates d ups.

(** The document after any number of such updates.  A [setDoc] of
    [handleCreateRoom] on the same room code replaces the document and is
    not an update. *)
Definition evolves : RoomData → RoomData → Prop := rtc roomUpdate.

(** A field write that could flag a host. *)
Definition grantsHost (f : FieldUpdate) : Prop :=
  match f with
  | SetPlayer _ p => p_isHost p = Some true
  | _ => False
  end.

(** The awaited writes of the lobby actions: the store is left alone or
    one document takes one of the listed updates. *)
Definition storeUpdated (store store' : gmap string RoomData) : Prop :=
  store' = store
  ∨ ∃ rid d ups, store !! rid = Some d ∧ appUpdate ups
      ∧ store' = <[rid := applyUpdates d ups]> store.

(** A playing room carries a truthy start time. *)
Definition startTimeSet (d : RoomData) : Prop :=
  r_status d = RoomPlaying → truthyNum (r_startTime d) = true.

(** ** Join *)

(** The three rejections the specification names, each with the alert that
    reports it. *)
Inductive JoinError := RoomNotFound | RoomFull | RoomInProgress.

Definition joinAlert (e : JoinError) : Effect :=
  E_alert match e with
          | RoomNotFound => "Room not found"
          | RoomFull => "Room full wait for next round"
          | RoomInProgress => "Game in progress"
          end.

(** ** The listener *)

(** The callback reads its closure only through the dependency list of
    the effect: [gameState], [userId], and, through [handleGameOver] and
    [startGame], [roomId], [totalXP] and [score.best]. *)
Definition sameDeps (c c' : AppState) : Prop :=
  gameState c = gameState c' ∧ userId c = userId c' ∧ roomId c = roomId c'
  ∧ totalXP c = totalXP c' ∧ best (score c) = best (score c').

(** The own entry says the participant is out of the round. *)
Definition outOfRound (uid : string) (data : RoomData) : Prop :=
  myStatus uid data = Some PCrashed ∨ myStatus uid data = Some PFinished.

(** The side-effecting instructions of the synchronizer, in the words of
    the specification (section 4.1). *)
Inductive SideEffect :=
  | StartSession
  | ForceGameOver (latestKnownLocalScore : GameScore)
  | NoSideEffect.

(** The transition table of the specification (room status, own entry
    status, local phase), row by row, as a function; the listener is
    compared with it in [deliver_in_room]. *)
Definition reconcile (previousLocalPhase : GameState) (room : RoomData)
    (localParticipantId : string) (latestKnownLocalScore : GameScore)
  : GameState * SideEffect :=
  match r_status room, myStatus localParticipantId room, previousLocalPhase with
  | RoomPlaying, Some PCrashed, phase => (phase, NoSideEffect)
  | RoomPlaying, Some (PPlaying | PReady), (LOBBY | SPECTATING | GAME_OVER) =>
      (PLAYING, StartSession)
  | RoomPlaying, Some (PPlaying | PReady), PLAYING => (PLAYING, NoSideEffect)
  | RoomFinished, _, PLAYING =>
      (SPECTATING, ForceGameOver latestKnownLocalScore)
  | RoomFinished, _, SPECTATING => (GAME_OVER, NoSideEffect)
  | RoomWaiting, _, (GAME_OVER | SPECTATING) => (LOBBY, NoSideEffect)
  | _, _, phase => (phase, NoSideEffect)
  end.

(** An effect list that holds nothing but the host's round-end write. *)
Definition arbitrationOnly (e : list Effect) : Prop :=
  ∀ x, x ∈ e → ∃ rid, x = E_updateDoc rid [SetStatus RoomFinished].

(** The write the host issues to end the round. *)
Definition finishWrite (rid : string) : Effect :=
  E_updateDoc rid [SetStatus RoomFinished].

(** The timeout condition on a snapshot: the start time is set (a truthy
    number) and more than [GAME_DURATION_MS] ago. *)
Definition timedOut (now : Z) (data : RoomData) : Prop :=
  ∃ T, r_startTime data = Num T ∧ T ≠ 0 ∧ now - T > GAME_DURATION_MS.

(** The report of a round result: own score and own status. *)
Definition roundReport (rid uid : string) (f : GameScore) : Effect :=
  E_updateDoc rid
    [SetPlayerScore uid (current f);
     SetPlayerStatus uid (if 0 <? lives f then PFinished else PCrashed)].

(** Effects that stay on the device: [localStorage] writes. *)
Definition localOnly (e : list Effect) : Prop :=
  ∀ x, x ∈ e → ∃ k v, x = E_storageSet k v.

(** ** The score throttle *)

(** The times at which a run reports a score: the [EvScoreUpdate] events
    that issue a write. *)
Fixpoint reportTimes (tr : list (AppState * Event * AppState * list Effect))
  : list Z :=
  match tr with
  | [] => []
  | (_, EvScoreUpdate now _, _, _ :: _) :: tr' => now :: reportTimes tr'
  | _ :: tr' => reportTimes tr'
  end.

(** Every time is more than the interval after all the times before it. *)
Fixpoint gapped (ts : list Z) : Prop :=
  match ts with
  | [] => True
  | t :: ts' => Forall (λ t', SCORE_SYNC_INTERVAL_MS < t' - t) ts' ∧ gapped ts'
  end.

(** ** Entries of a document *)

(** No entry of the document has status ['playing']. *)
Definition nobodyPlaying (data : RoomData) : Prop :=
  ∀ u q, r_players data !! u = Some q → p_status q ≠ Some PPlaying.

(** Every entry of the document has status [s] and score 0. *)
Definition allReset (s : PlayerStatus) (d : RoomData) : Prop :=
  ∀ u p, r_players d !! u = Some p →
         p_status p = Some s ∧ p_score p = Some 0.

(** The entries of the document [d] that the snapshot [rd] does not list
    have status [s] and score 0. *)
Definition unlistedReset (s : PlayerStatus) (rd d : RoomData) : Prop :=
  ∀ u p, r_players rd !! u = None → r_players d !! u = Some p →
         p_status p = Some s ∧ p_score p = Some 0.

(** ** Clients and their writes *)


(** The client is in a room: both identifiers are truthy. *)
Definition inRoom (st : AppState) (rid : string) : Prop :=
  roomId st = Some rid ∧ rid ≠ "" ∧ userId st ≠ "".

(** A room reference asks for an identifier. *)
Definition roomNeedsUser (st : AppState) : Prop :=
  roomId st ≠ None → userId st ≠ "".

(** The spectator phase asks for a room. *)
Definition spectatorInRoom (st : AppState) : Prop :=
  gameState st = SPECTATING → ∃ rid, inRoom st rid.


(** Participant [u] is flagged host in the document. *)
Definition isHostIn (d : RoomData) (u : string) : Prop :=
  r_players d !! u ≫= p_isHost = Some true.

(** ** A concrete room *)

(** Room ["ABC123"], created by Alice at 1000 and joined by Bob. *)
Definition exRoom : RoomData :=
  mkRoom "ABC123" 1000 RoomWaiting Undefined
    (<["bob" := newPlayer "bob" "Bob" false]>
       {[ "alice" := newPlayer "alice" "Alice" true ]}).

(** The room after Alice started the match at 5000. *)
Definition exPlaying : RoomData :=
  applyUpdates exRoom (startMatchUpdates 5000 exRoom).

(** Then Alice crashed with 40 points. *)
Definition exCrashed : RoomData :=
  applyUpdates exPlaying
    [SetPlayerScore "alice" 40; SetPlayerStatus "alice" PCrashed].

(** Then the round was ended. *)
Definition exFinished : RoomData :=
  applyUpdates exCrashed [SetStatus RoomFinished].

Definition exStore : gmap string RoomData := {[ "ABC123" := exRoom ]}.

(** The score of a fresh game. *)
Definition exScore : GameScore := mkScore 0 0 0 INITIAL_LIVES.

(** Alice, the host, and Bob, in the room, in phase [g]. *)
Definition exAlice (g : GameState) : AppState :=
  mkApp g exScore 0 1 0 "alice" (Some "ABC123") (Some exRoom).

Definition exBob (g : GameState) : AppState :=
  mkApp g exScore 0 1 0 "bob" (Some "ABC123") (Some exRoom).

Definition exRefs : Refs := mkRefs 0 exScore.

(** A room with thirty players. *)
Definition exFull : RoomData :=
  mkRoom "FULL00" 1000 RoomWaiting Undefined
    (list_to_map
       ((λ n : nat, (pretty n, newPlayer (pretty n) "Player" false))
          <$> seq 0%nat 30%nat)).

(** A store with a waiting, a playing and a full room. *)
Definition exRooms : gmap string RoomData :=
  <["FULL00" := exFull]> (<["PLAY00" := exPlaying]> exStore).

(** Carol, in the lobby and in no room yet. *)
Definition exCarol : AppState :=
  mkApp LOBBY exScore 0 1 0 "carol" None None.

(** Bob's score cell when the round ends: 70 points, three lives. *)
Definition exBobRefs : Refs := mkRefs 8000 (mkScore 70 0 1 3).

(** Alice on the leaderboard of the finished room. *)
Definition exAliceOver : AppState :=
  mkApp GAME_OVER exScore 0 1 0 "alice" (Some "ABC123") (Some exFinished).

Definition exFinishedStore : gmap string RoomData :=
  {[ "ABC123" := exFinished ]}.

(** Three score updates of Bob, the second inside the interval. *)
Definition exUpdates : list Event :=
  [EvScoreUpdate 3000 (mkScore 10 0 0 3);
   EvScoreUpdate 4000 (mkScore 20 0 0 3);
   EvScoreUpdate 5500 (mkScore 30 0 1 3)].

(** ** Entries a snapshot does not list *)

(** Bob has finished with 70 points as well: nobody is playing. *)
Definition exAllOut : RoomData :=
  applyUpdates exCrashed
    [SetPlayerScore "bob" 70; SetPlayerStatus "bob" PFinished].

(** Carol has joined the waiting room; Alice's [roomData] is still
    [exRoom] and does not list her. *)
Definition exJoinedStore : gmap string RoomData :=
  (handleJoinRoom exCarol exCarol exStore "ABC123" "Carol").1.2.

(** Bob and Carol in the room, with the snapshot they hold. *)
Definition exBobIn (rd : option RoomData) : AppState :=
  mkApp LOBBY exScore 0 1 0 "bob" (Some "ABC123") rd.

Definition exCarolIn (rd : option RoomData) : AppState :=
  mkApp PLAYING exScore 0 1 0 "carol" (Some "ABC123") rd.

(** Carol joins the finished room, Bob starts the next round at 190000
    from a snapshot that lists her, and she reports 55 points.  Alice's
    [roomData] is still [exFinished]. *)
Definition exLateStore : gmap string RoomData :=
  let s1 := (handleJoinRoom exCarol exCarol exFinishedStore "ABC123"
               "Carol").1.2 in
  let bob := exBobIn (getDoc s1 "ABC123") in
  let s2 := (handleStartMatch bob bob s1 190000).1.2 in
  let carol := exCarolIn (getDoc s2 "ABC123") in
  commitAll s2
    (handleScoreUpdate carol carol exRefs 195000 (mkScore 55 0 0 3)).2.

(** ** Callbacks of an earlier render *)

(** Carol with a best score of [b]. *)
Definition exCarolBest (b : Z) : AppState :=
  setScore (λ _, mkScore 0 b 0 INITIAL_LIVES) exCarol.

(** The room of Alice and Bob as a late joiner meets it when her write
    arrives: twenty-eight more players have joined. *)
Definition exFilledStore : gmap string RoomData := {[ "ABC123" := exFull ]}.

(** ** The scenario of the specification *)

(** One client event against the shared store: the step, the render, and
    the fire-and-forget writes committed. *)
Definition play (x : AppState * Refs) (store : gmap string RoomData)
    (ev : Event) : AppState * Refs * gmap string RoomData :=
  let '(st, r, e) := render (step x.1 x.2 ev) in (st, r, commitAll store e).

(** The snapshot of room ["ABC123"] a client receives from the store. *)
Definition snapshotAt (store : gmap string RoomData) (now : Z) : Event :=
  EvSnapshot now (getDoc store "ABC123").

(** Alice creates the room, Bob joins, Alice starts the match and
    crashes, Bob reports a score, and Alice as host ends the round once the
    time is up.  The result lists the phases after the start, Alice's
    phase and the room status after her crash, the room status after the
    timeout, the final phases, and the final entries. *)
Definition scenario :=
  let a0 := mkApp LOBBY exScore 0 1 0 "alice" None None in
  let b0 := mkApp LOBBY exScore 0 1 0 "bob" None None in
  let '(a1, s1, _) := handleCreateRoom a0 a0 ∅ "ABC123" 1000 "Alice" in
  let '(b1, s2, _) := handleJoinRoom b0 b0 s1 "ABC123" "Bob" in
  let '(a2, ra2, _) := play (a1, exRefs) s2 (snapshotAt s2 1100) in
  let '(b2, rb2, _) := play (b1, exRefs) s2 (snapshotAt s2 1100) in
  let '(_, s3, _) := handleStartMatch a2 a2 s2 5000 in
  let '(a3, ra3, _) := play (a2, ra2) s3 (snapshotAt s3 5100) in
  let '(b3, rb3, _) := play (b2, rb2) s3 (snapshotAt s3 5100) in
  let '(a4, ra4, s4) := play (a3, ra3) s3 (EvGameOver (mkScore 40 0 0 0)) in
  let '(a5, ra5, s5) := play (a4, ra4) s4 (snapshotAt s4 6000) in
  let '(b5, rb5, s6) := play (b3, rb3) s5 (EvScoreUpdate 8000 (mkScore 70 0 1 3)) in
  let '(a6, ra6, s7) :=
    play (a5, ra5) s6 (snapshotAt s6 (5000 + GAME_DURATION_MS + 1)) in
  let '(a7, ra7, s8) := play (a6, ra6) s7 (snapshotAt s7 185100) in
  let '(b6, rb6, s9) := play (b5, rb5) s8 (snapshotAt s8 185100) in
  let '(b7, rb7, s10) := play (b6, rb6) s9 (snapshotAt s9 185200) in
  ((gameState a3, gameState b3),
   (gameState a4, r_status <$> getDoc s5 "ABC123"),
   (r_status <$> getDoc s7 "ABC123"),
   (gameState a7, gameState b6, gameState b7),
   ((λ d, (myStatus "alice" d, myStatus "bob" d,
           r_players d !! "alice" ≫= p_score,
           r_players d !! "bob" ≫= p_score)) <$> getDoc s10 "ABC123")).

(** Closes the routine cases of [step_frame]. *)
Ltac frame_done :=
  eexists _, _, _; (split; [reflexivity|]); cbn; split; intros;
  try done; try congruence; try (exfalso; by auto).


(** * Properties *)

(** ** The update lists and the document *)

Lemma truthyStr_true (s : string) : truthyStr s = true ↔ s ≠ "".
Proof. unfold truthyStr. by rewrite bool_decide_eq_true. Qed.

Lemma truthyStr_ne (s : string) : s ≠ "" → truthyStr s = true.
Proof. apply truthyStr_true. Qed.

Lemma elem_of_Object_keys (m : gmap string PlayerData) (u : string) :
  u ∈ Object_keys m ↔ is_Some (m !! u).
Proof.
  unfold Object_keys. rewrite list_elem_of_fmap. split.
  - intros [[k p] [-> Hin]]. apply elem_of_map_to_list in Hin. eauto.
  - intros [p Hp]. exists (u, p). split; [done|]. by apply elem_of_map_to_list.
Qed.

Lemma length_Object_keys (m : gmap string PlayerData) :
  length (Object_keys m) = size m.
Proof. unfold Object_keys. by rewrite length_fmap, length_map_to_list. Qed.

Lemma elem_of_Object_values (m : gmap string PlayerData) (p : PlayerData) :
  p ∈ Object_values m ↔ ∃ u, m !! u = Some p.
Proof.
  unfold Object_values. rewrite list_elem_of_fmap. split.
  - intros [[k q] [-> Hin]]. apply elem_of_map_to_list in Hin. eauto.
  - intros [u Hu]. exists (u, p). split; [done|]. by apply elem_of_map_to_list.
Qed.

Lemma resetPlayers_cons s pid pids :
  resetPlayers s (pid :: pids)
  = SetPlayerStatus pid s :: SetPlayerScore pid 0 :: resetPlayers s pids.
Proof. reflexivity. Qed.

Lemma applyUpdates_app d ups1 ups2 :
  applyUpdates d (ups1 ++ ups2) = applyUpdates (applyUpdates d ups1) ups2.
Proof. apply foldl_app. Qed.

(** The per-player paths leave the room-level fields alone. *)
Lemma resetPlayers_room d s pids :
  let d' := applyUpdates d (resetPlayers s pids) in
  r_id d' = r_id d ∧ r_createdAt d' = r_createdAt d
  ∧ r_status d' = r_status d ∧ r_startTime d' = r_startTime d.
Proof.
  revert d. induction pids as [|pid pids IH]; intros d; [done|].
  rewrite resetPlayers_cons.
  specialize (IH (applyField (applyField d (SetPlayerStatus pid s))
                    (SetPlayerScore pid 0))).
  cbn in IH. unfold applyUpdates. cbn. done.
Qed.

(** The entries named in the list are reset, the others untouched. *)
Lemma resetPlayers_lookup d s pids u :
  r_players (applyUpdates d (resetPlayers s pids)) !! u
  = if decide (u ∈ pids) then Some (resetEntry s (entryAt u d))
    else r_players d !! u.
Proof.
  revert d. induction pids as [|pid pids IH]; intros d.
  - cbn. rewrite decide_False; [done|]. apply not_elem_of_nil.
  - rewrite resetPlayers_cons. unfold applyUpdates. cbn [foldl].
    fold (applyUpdates (applyField (applyField d (SetPlayerStatus pid s))
                          (SetPlayerScore pid 0)) (resetPlayers s pids)).
    rewrite IH. unfold entryAt. cbn.
    destruct (decide (u = pid)) as [->|Hne].
    + rewrite !lookup_insert_eq. cbn.
      destruct (decide (pid ∈ pid :: pids)) as [_|Hn]; [|by destruct Hn; left].
      unfold resetEntry, withPScore, withPStatus, entryAt; cbn.
      rewrite !lookup_insert_eq; cbn. by case_decide.
    + rewrite !lookup_insert_ne by done.
      destruct (decide (u ∈ pids)) as [Hin|Hnin].
      * rewrite decide_True; [done|]. by right.
      * rewrite decide_False; [done|]. rewrite not_elem_of_cons. done.
Qed.

(** A room-level write followed by a reset of the players of [rd]. *)
Lemma roundUpdates_spec (d rd : RoomData) (rs : RoomStatus) (t : JsOptNum)
    (ps : PlayerStatus) :
  let d' := applyUpdates d ([SetStatus rs; SetStartTime t]
                            ++ resetPlayers ps (Object_keys (r_players rd))) in
  r_status d' = rs ∧ r_startTime d' = t
  ∧ r_id d' = r_id d ∧ r_createdAt d' = r_createdAt d
  ∧ (∀ u, is_Some (r_players rd !! u) →
       r_players d' !! u = Some (resetEntry ps (entryAt u d)))
  ∧ (∀ u, r_players rd !! u = None → r_players d' !! u = r_players d !! u).
Proof.
  intros d'. subst d'. rewrite applyUpdates_app.
  set (d0 := applyUpdates d [SetStatus rs; SetStartTime t]).
  destruct (resetPlayers_room d0 ps (Object_keys (r_players rd)))
    as (Hid & Hc & Hs & Ht).
  rewrite Hid, Hc, Hs, Ht. repeat split; try done.
  - intros u Hu. rewrite resetPlayers_lookup.
    rewrite decide_True by by apply elem_of_Object_keys. done.
  - intros u Hu. rewrite resetPlayers_lookup.
    rewrite decide_False; [done|].
    rewrite elem_of_Object_keys, Hu. by intros [? ?].
Qed.

Lemma updateDoc_Some store rid d ups :
  getDoc store rid = Some d →
  updateDoc store rid ups = Some (<[rid := applyUpdates d ups]> store).
Proof. unfold getDoc, updateDoc. by intros ->. Qed.

(** ** Match start and lobby restart *)

(** C7.  [startMatch], as amended: the handler issues one [updateDoc];
    the document it leaves has status ['playing'] and the fresh
    [startTime], and every entry that the caller's [roomData] lists has
    status ['playing'] and score 0 with its other fields kept.  An entry
    of the document that the caller's snapshot does not list is left as
    it is; so every entry of the document is reset exactly when the
    unlisted ones already were playing with score 0. *)
Theorem handleStartMatch_batched_reset (c st : AppState)
    (store : gmap string RoomData) (now : Z) (rid : string)
    (rd d : RoomData) :
  roomId c = Some rid → rid ≠ "" → roomData c = Some rd →
  getDoc store rid = Some d →
  ∃ d',
    updateDoc store rid (startMatchUpdates now rd) = Some (<[rid := d']> store)
    ∧ handleStartMatch c st store now = (st, <[rid := d']> store, [])
    ∧ r_status d' = RoomPlaying ∧ r_startTime d' = Num now
    ∧ r_id d' = r_id d ∧ r_createdAt d' = r_createdAt d
    ∧ (∀ u, is_Some (r_players rd !! u) →
         r_players d' !! u = Some (resetEntry PPlaying (entryAt u d)))
    ∧ (∀ u, r_players rd !! u = None → r_players d' !! u = r_players d !! u)
    ∧ (allReset PPlaying d' ↔ unlistedReset PPlaying rd d).
Proof.
  intros Hrid Hne Hrd Hd.
  exists (applyUpdates d (startMatchUpdates now rd)).
  pose proof (updateDoc_Some store rid d (startMatchUpdates now rd) Hd) as Hup.
  split; [done|].
  split.
  { unfold handleStartMatch. by rewrite Hrid, Hrd, (truthyStr_ne _ Hne), Hup. }
  destruct (roundUpdates_spec d rd RoomPlaying (Num now) PPlaying)
    as (Hs & Ht & Hi & Hc & Hin & Hout).
  unfold startMatchUpdates.
  split_and!; try done.
  split.
  - intros Hall u p Hu Hp. apply (Hall u). by rewrite Hout.
  - intros Hrest u p Hp.
    destruct (r_players rd !! u) as [q|] eqn:Hq.
    + rewrite Hin in Hp by eauto. by inversion Hp.
    + rewrite Hout in Hp by done. by apply (Hrest u).
Qed.

(** The store after a join attempt: untouched, or the caller's entry
    written into a room that is not playing. *)
Lemma handleJoinRoom_store (c st : AppState) (store : gmap string RoomData)
    (id playerName : string) :
  (handleJoinRoom c st store id playerName).1.2 = store
  ∨ ∃ data, getDoc store id = Some data ∧ r_status data ≠ RoomPlaying
      ∧ (handleJoinRoom c st store id playerName).1.2
        = <[id := applyUpdates data
                    [SetPlayer (userId c)
                       (newPlayer (userId c) playerName false)]]> store.
Proof.
  unfold handleJoinRoom.
  destruct (truthyStr (userId c)); cbn; [|by left].
  destruct (getDoc store id) as [data|] eqn:Hd; [|by left].
  destruct (MAX_PLAYERS_PER_ROOM <=? _); [by left|].
  destruct (r_status data) eqn:Hs; [|by left|];
    right; exists data; rewrite (updateDoc_Some _ _ _ _ Hd), Hs; done.
Qed.

Lemma lobbyReset_join (d : RoomData) (uid playerName : string) :
  lobbyReset d →
  lobbyReset (applyUpdates d [SetPlayer uid (newPlayer uid playerName false)]).
Proof.
  intros (Hs & Ht & Hp). split_and!; [done|done|].
  intros u p. cbn. destruct (decide (u = uid)) as [->|Hne].
  - rewrite lookup_insert_eq. by intros [= <-].
  - rewrite lookup_insert_ne by done. apply Hp.
Qed.

(** C6.  [restartLobby], as amended: the handler issues one [updateDoc]
    carrying status ['waiting'], [startTime] null and the reset of every
    entry that the caller's [roomData] lists; an entry of the document
    that the caller's snapshot does not list is left as it is.  So the
    document read afterwards is in the between-rounds state exactly when
    the unlisted entries were ready with score 0, and then it still is
    after any join attempt that follows. *)
Theorem handleRestartLobby_resets (c st : AppState)
    (store : gmap string RoomData) (rid : string) (rd d : RoomData) :
  roomId c = Some rid → rid ≠ "" → roomData c = Some rd →
  getDoc store rid = Some d →
  ∃ store' d',
    handleRestartLobby c st store = (st, store', [])
    ∧ updateDoc store rid (restartLobbyUpdates rd) = Some store'
    ∧ getDoc store' rid = Some d'
    ∧ r_status d' = RoomWaiting ∧ r_startTime d' = Null
    ∧ (∀ u, is_Some (r_players rd !! u) →
         r_players d' !! u = Some (resetEntry PReady (entryAt u d)))
    ∧ (∀ u, r_players rd !! u = None → r_players d' !! u = r_players d !! u)
    ∧ (lobbyReset d' ↔ unlistedReset PReady rd d)
    ∧ (lobbyReset d' →
       ∀ cj stj playerName, ∃ d'',
         getDoc (handleJoinRoom cj stj store' rid playerName).1.2 rid = Some d''
         ∧ lobbyReset d'').
Proof.
  intros Hrid Hne Hrd Hd.
  set (d' := applyUpdates d (restartLobbyUpdates rd)).
  exists (<[rid := d']> store), d'.
  pose proof (updateDoc_Some store rid d (restartLobbyUpdates rd) Hd) as Hup.
  destruct (roundUpdates_spec d rd RoomWaiting Null PReady)
    as (Hs & Ht & _ & _ & Hin & Hout).
  fold (restartLobbyUpdates rd) in Hs, Ht, Hin, Hout. fold d' in Hs, Ht, Hin, Hout.
  assert (Hget : getDoc (<[rid := d']> store) rid = Some d')
    by apply lookup_insert_eq.
  split_and!; try done.
  - unfold handleRestartLobby.
    by rewrite Hrid, Hrd, (truthyStr_ne _ Hne), Hup.
  - split.
    + intros (_ & _ & Hall) u p Hu Hp. apply (Hall u). by rewrite Hout.
    + intros Hrest. split_and!; [done|done|]. intros u p Hp.
      destruct (r_players rd !! u) as [q|] eqn:Hq.
      * rewrite Hin in Hp by eauto. by inversion Hp.
      * rewrite Hout in Hp by done. by apply (Hrest u).
  - intros Hreset cj stj playerName.
    destruct (handleJoinRoom_store cj stj (<[rid := d']> store) rid playerName)
      as [-> | (data & Hdata & _ & ->)]; [eauto|].
    rewrite Hget in Hdata. injection Hdata as <-.
    eexists. split; [apply lookup_insert_eq|]. by apply lobbyReset_join.
Qed.

(** ** Join *)

Lemma handleJoinRoom_success (c st : AppState) (store : gmap string RoomData)
    (id playerName : string) (data : RoomData) :
  userId c ≠ "" → getDoc store id = Some data →
  Z.of_nat (size (r_players data)) < MAX_PLAYERS_PER_ROOM →
  r_status data ≠ RoomPlaying →
  handleJoinRoom c st store id playerName
  = (setGameState LOBBY (setRoomId (Some id) st),
     <[id := applyUpdates data
               [SetPlayer (userId c) (newPlayer (userId c) playerName false)]]>
       store, []).
Proof.
  intros Hu Hd Hroom Hs. unfold handleJoinRoom.
  rewrite (truthyStr_ne _ Hu), Hd, length_Object_keys. cbn [negb].
  destruct (Z.leb_spec MAX_PLAYERS_PER_ROOM (Z.of_nat (size (r_players data))));
    [lia|].
  rewrite (updateDoc_Some _ _ _ _ Hd). by destruct (r_status data).
Qed.

(** C4.  [join] by a caller with an identifier: no record gives
    RoomNotFound; a record with [MAX_PLAYERS_PER_ROOM] players or more
    gives RoomFull; below capacity, status ['playing'] gives
    RoomInProgress; the three leave the store and the local state as they
    were.  Below capacity in a waiting or finished room the caller's entry
    is written with status ['ready'] (score 0, not host), the other
    entries and the room-level fields stay, and the caller enters the
    lobby of that room. *)
Theorem handleJoinRoom_outcomes (c st : AppState)
    (store : gmap string RoomData) (id playerName : string) :
  userId c ≠ "" →
  (getDoc store id = None →
     handleJoinRoom c st store id playerName
     = (st, store, [joinAlert RoomNotFound]))
  ∧ ∀ data, getDoc store id = Some data →
      (MAX_PLAYERS_PER_ROOM ≤ Z.of_nat (size (r_players data)) →
         handleJoinRoom c st store id playerName
         = (st, store, [joinAlert RoomFull]))
      ∧ (Z.of_nat (size (r_players data)) < MAX_PLAYERS_PER_ROOM →
         r_status data = RoomPlaying →
         handleJoinRoom c st store id playerName
         = (st, store, [joinAlert RoomInProgress]))
      ∧ (Z.of_nat (size (r_players data)) < MAX_PLAYERS_PER_ROOM →
         r_status data = RoomWaiting ∨ r_status data = RoomFinished →
         ∃ store' d',
           handleJoinRoom c st store id playerName
           = (setGameState LOBBY (setRoomId (Some id) st), store', [])
           ∧ getDoc store' id = Some d'
           ∧ (∀ id', id' ≠ id → getDoc store' id' = getDoc store id')
           ∧ r_players d' !! userId c
             = Some (mkPlayer (Some (userId c)) (Some playerName) (Some 0)
                       (Some false) (Some PReady))
           ∧ (∀ u, u ≠ userId c → r_players d' !! u = r_players data !! u)
           ∧ r_status d' = r_status data
           ∧ r_startTime d' = r_startTime data).
Proof.
  intros Huid. unfold handleJoinRoom.
  rewrite (truthyStr_ne _ Huid). cbn [negb]. split.
  - by intros ->.
  - intros data Hd. rewrite Hd, length_Object_keys. split_and!.
    + intros Hfull.
      by destruct (Z.leb_spec MAX_PLAYERS_PER_ROOM
                     (Z.of_nat (size (r_players data)))); [|lia].
    + intros Hroom Hplaying.
      destruct (Z.leb_spec MAX_PLAYERS_PER_ROOM
                  (Z.of_nat (size (r_players data)))); [lia|].
      by rewrite Hplaying.
    + intros Hroom Hopen.
      destruct (Z.leb_spec MAX_PLAYERS_PER_ROOM
                  (Z.of_nat (size (r_players data)))); [lia|].
      rewrite (updateDoc_Some _ _ _ _ Hd).
      eexists _, _. split; [by destruct Hopen as [-> | ->]|].
      unfold getDoc. split_and!.
      * apply lookup_insert_eq.
      * intros id' Hne. by rewrite lookup_insert_ne.
      * cbn. apply lookup_insert_eq.
      * intros u Hne. cbn. by rewrite lookup_insert_ne.
      * done.
      * done.
Qed.

(** ** The snapshot listener *)

Lemma onSnapshotNext_deps (c c' st : AppState) (rid : string) (r : Refs)
    (now : Z) (snap : option RoomData) :
  sameDeps c c' →
  onSnapshotNext c rid st r now snap = onSnapshotNext c' rid st r now snap.
Proof.
  intros (Hg & Hu & Hr & Hx & Hb). destruct snap as [data|]; [|done].
  unfold onSnapshotNext, onRoomPlaying, onRoomFinished, onRoomWaiting,
    hostLogic, startGame, handleGameOver.
  by rewrite Hg, Hu, Hr, Hx, Hb.
Qed.

(** While the room is playing, a snapshot whose own entry is crashed or
    finished only refreshes [roomData]: nothing is started, whatever the
    closure and the pending state are; what is left is the host logic. *)
Lemma onSnapshotNext_out_of_round (c st : AppState) (rid : string) (r : Refs)
    (now : Z) (data : RoomData) :
  r_status data = RoomPlaying → outOfRound (userId c) data →
  onSnapshotNext c rid st r now (Some data)
  = (setRoomData (Some data) st, r, hostLogic c rid now data).
Proof.
  intros Hs Hout.
  unfold onSnapshotNext, onRoomPlaying, onRoomFinished, onRoomWaiting.
  rewrite Hs. cbn. by destruct Hout as [-> | ->].
Qed.

Lemma hostLogic_cases (c : AppState) (rid : string) (now : Z)
    (data : RoomData) :
  hostLogic c rid now data = []
  ∨ hostLogic c rid now data = [E_updateDoc rid [SetStatus RoomFinished]].
Proof.
  unfold hostLogic.
  destruct (_ && _ && _); [|by left].
  destruct (_ || _); [by right|by left].
Qed.

Lemma hostLogic_no_start (c : AppState) (rid : string) (now : Z)
    (data : RoomData) :
  E_audioStart ∉ hostLogic c rid now data.
Proof.
  destruct (hostLogic_cases c rid now data) as [-> | ->].
  - apply not_elem_of_nil.
  - intros Hin. apply list_elem_of_singleton in Hin. discriminate.
Qed.

(** ** No resurrection *)

Lemma deliver_out_of_round (st : AppState) (r : Refs) (now : Z)
    (data : RoomData) :
  r_status data = RoomPlaying → outOfRound (userId st) data →
  ∃ st' e, deliver st r now (Some data) = (st', r, e)
           ∧ gameState st' = gameState st ∧ score st' = score st
           ∧ E_audioStart ∉ e.
Proof.
  intros Hs Hout. unfold deliver, roomListener.
  destruct (roomId st) as [rid|]; [destruct (truthyStr rid)|].
  - rewrite onSnapshotNext_out_of_round by done.
    eexists _, _. split; [done|]. split_and!; [done|done|].
    apply hostLogic_no_start.
  - eexists _, _. split; [done|]. split_and!; [done|done|]. apply not_elem_of_nil.
  - eexists _, _. split; [done|]. split_and!; [done|done|]. apply not_elem_of_nil.
Qed.

(** C1.  No resurrection: in every run of the client, whatever the events
    and the snapshots delivered, a snapshot with room status ['playing']
    whose own entry is crashed or finished leaves the local phase where it
    was and starts no game (no engine start, the local score is not
    reset). *)
Theorem no_resurrection (st : AppState) (r : Refs) (evs : list Event) :
  Forall (λ '(before, ev, after, e),
            ∀ now data, ev = EvSnapshot now (Some data) →
              r_status data = RoomPlaying →
              outOfRound (userId before) data →
              gameState after = gameState before
              ∧ score after = score before
              ∧ E_audioStart ∉ e)
    (runClient st r evs).
Proof.
  revert st r. induction evs as [|ev evs IH]; intros st r; [constructor|].
  cbn [runClient].
  destruct (render (step st r ev)) as [[st' r'] e] eqn:Hstep.
  constructor; [|apply IH].
  intros now data -> Hs Hout.
  destruct (deliver_out_of_round st r now data Hs Hout)
    as (st1 & e1 & Hd & Hg & Hsc & He).
  cbn in Hstep. rewrite Hd in Hstep. cbn in Hstep.
  by injection Hstep as <- <- <-.
Qed.

(** ** Reconciliation against the transition table *)

(** The listener implements the table: the phase moves as the table says
    and the side effect is [startGame] or [handleGameOver]; the host logic
    comes on top. *)
Lemma deliver_in_room (st : AppState) (r : Refs) (now : Z) (data : RoomData)
    (rid : string) :
  roomId st = Some rid → rid ≠ "" →
  deliver st r now (Some data) =
   let st0 := setRoomData (Some data) st in
   let h := hostLogic st rid now data in
   match reconcile (gameState st) data (userId st) (latestScoreRef r) with
   | (_, StartSession) => let '(st', r', e) := startGame st st0 r in (st', r', e ++ h)
   | (_, ForceGameOver f) => let '(st', e) := handleGameOver st st0 f in (st', r, e ++ h)
   | (ph, NoSideEffect) => (setGameState ph st0, r, h)
   end.
Proof.
  intros Hrid Hne. unfold deliver, roomListener.
  rewrite Hrid, (truthyStr_ne _ Hne).
  unfold onSnapshotNext, onRoomPlaying, onRoomFinished, onRoomWaiting, reconcile.
  destruct st as [g sc x lv ex uid rid' rd]. cbn [gameState userId].
  destruct (r_status data), (myStatus uid data) as [[]|], g; try reflexivity.
  all: cbn -[hostLogic handleGameOver]; try reflexivity.
  all: by destruct (handleGameOver _ _ _).
Qed.

Lemma arbitrationOnly_nil : arbitrationOnly [].
Proof. intros x Hx. by apply not_elem_of_nil in Hx. Qed.

Lemma arbitrationOnly_hostLogic c rid now data :
  arbitrationOnly (hostLogic c rid now data).
Proof.
  destruct (hostLogic_cases c rid now data) as [-> | ->].
  - apply arbitrationOnly_nil.
  - intros x Hx. apply list_elem_of_singleton in Hx. eauto.
Qed.

(** What [handleGameOver] leaves of the pending state. *)
Lemma handleGameOver_shape (c st : AppState) (f : GameScore) :
  ∃ st' e, handleGameOver c st f = (st', e)
    ∧ roomId st' = roomId st ∧ userId st' = userId st
    ∧ roomData st' = roomData st
    ∧ gameState st'
      = (if truthyId (roomId c) && truthyStr (userId c)
         then SPECTATING else GAME_OVER).
Proof.
  unfold handleGameOver.
  destruct (best (score c) <? current f);
    destruct (roomId c) as [rid|]; cbn [truthyId andb];
    try destruct (truthyStr rid && truthyStr (userId c));
    eexists _, _; (split; [reflexivity|]); done.
Qed.

(** Once a snapshot has been applied, the phase it leaves asks for no
    side effect under the same snapshot. *)
Lemma deliver_settles (st : AppState) (r : Refs) (now : Z) (data : RoomData)
    (rid : string) :
  roomId st = Some rid → rid ≠ "" →
  ∃ st1 r1 e1, deliver st r now (Some data) = (st1, r1, e1)
    ∧ roomId st1 = Some rid ∧ userId st1 = userId st
    ∧ roomData st1 = Some data
    ∧ ∀ sc, ∃ ph, reconcile (gameState st1) data (userId st) sc
                  = (ph, NoSideEffect)
              ∧ (ph = gameState st1
                 ∨ gameState st1 = SPECTATING ∧ ph = GAME_OVER).
Proof.
  intros Hrid Hne. rewrite (deliver_in_room _ _ _ _ rid) by done.
  unfold reconcile.
  destruct (r_status data) eqn:Hs;
    destruct (myStatus (userId st) data) as [[]|] eqn:Hm;
    destruct (gameState st) eqn:Hg; cbn -[hostLogic handleGameOver].
  all: try (eexists _, _, _; split; [reflexivity|]; cbn; rewrite ?Hg;
            split_and!; try done; intros sc; eexists; split; [reflexivity|];
            by eauto).
  all: destruct (handleGameOver_shape st (setRoomData (Some data) st)
                   (latestScoreRef r)) as (st' & e & -> & Hr' & Hu' & Hd' & Hg');
    eexists _, _, _; (split; [reflexivity|]); rewrite Hr', Hu', Hd', Hg';
    cbn; split_and!; try done; intros sc;
    destruct (truthyId (roomId st) && truthyStr (userId st));
    eexists; (split; [reflexivity|]); eauto.
Qed.

Lemma setRoomData_same (st : AppState) (d : option RoomData) :
  roomData st = d → setRoomData d st = st.
Proof. destruct st. cbn. by intros ->. Qed.

Lemma setGameState_same (st : AppState) : setGameState (gameState st) st = st.
Proof. by destruct st. Qed.

Lemma deliver_no_room (st : AppState) (r : Refs) (now : Z)
    (snap : option RoomData) :
  truthyId (roomId st) = false →
  deliver st r now snap = (setRoomData None st, r, []).
Proof.
  unfold deliver, roomListener, truthyId.
  destruct (roomId st) as [rid|]; [|done]. by intros ->.
Qed.

Lemma truthyId_Some (o : option string) :
  truthyId o = true → ∃ rid, o = Some rid ∧ rid ≠ "".
Proof.
  destruct o as [rid|]; [|done]. cbn. intros H%truthyStr_true. eauto.
Qed.

(** C2.  Idempotent reconciliation: a snapshot applied a second time, in
    the state the first application left, issues no side effect (no game
    start, no forced game over: the only effect possible is the host's
    round-end write, decided anew on every snapshot), leaves the refs
    alone, and leaves the state alone but for the move from spectating to
    game over under a finished room.  In particular, in a room with status
    ['playing'] and own entry playing or ready, the game is started exactly
    when the local phase is lobby, spectating or game over, and a client
    already playing only refreshes [roomData]. *)
Theorem idempotent_reconciliation (c : AppState) (r : Refs) (now1 now2 : Z)
    (data : RoomData) :
  let x1 := deliver c r now1 (Some data) in
  let x2 := deliver x1.1.1 x1.1.2 now2 (Some data) in
  (arbitrationOnly x2.2 ∧ x2.1.2 = x1.1.2
   ∧ (x2.1.1 = x1.1.1 ∨ x2.1.1 = setGameState GAME_OVER x1.1.1))
  ∧ (truthyId (roomId c) = true → r_status data = RoomPlaying →
     myStatus (userId c) data = Some PPlaying
     ∨ myStatus (userId c) data = Some PReady →
     (E_audioStart ∈ x1.2
      ↔ gameState c = LOBBY ∨ gameState c = SPECTATING
        ∨ gameState c = GAME_OVER)
     ∧ (E_audioStart ∈ x1.2 → gameState x1.1.1 = PLAYING)
     ∧ (gameState c = PLAYING →
        x1.1.1 = setRoomData (Some data) c ∧ x1.1.2 = r
        ∧ arbitrationOnly x1.2)).
Proof.
  intros x1 x2. split.
  - destruct (truthyId (roomId c)) eqn:Hroom.
    + destruct (truthyId_Some _ Hroom) as (rid & Hrid & Hne).
      destruct (deliver_settles c r now1 data rid Hrid Hne)
        as (st1 & r1 & e1 & Hx1 & Hr1 & Hu1 & Hd1 & Hsettled).
      subst x2 x1. rewrite Hx1. cbn [fst snd].
      rewrite (deliver_in_room _ _ _ _ rid) by done.
      destruct (Hsettled (latestScoreRef r1)) as (ph & Hrec & Hph).
      rewrite Hu1, Hrec. cbn [fst snd].
      rewrite (setRoomData_same st1) by done.
      split; [apply arbitrationOnly_hostLogic|split; [done|]].
      destruct Hph as [-> | [_ ->]]; [left; apply setGameState_same|by right].
    + subst x2 x1. rewrite (deliver_no_room c) by done. cbn [fst snd].
      rewrite deliver_no_room by (cbn; done). cbn [fst snd].
      split; [apply arbitrationOnly_nil|split; [done|]].
      left. by apply setRoomData_same.
  - intros Hroom Hs Hm.
    destruct (truthyId_Some _ Hroom) as (rid & Hrid & Hne).
    subst x1. rewrite (deliver_in_room _ _ _ _ rid) by done.
    pose proof (hostLogic_no_start c rid now1 data) as Hh.
    pose proof (arbitrationOnly_hostLogic c rid now1 data) as Ha.
    unfold reconcile. rewrite Hs.
    assert (Hsame : gameState c = PLAYING →
              setGameState PLAYING (setRoomData (Some data) c)
              = setRoomData (Some data) c).
    { intros <-. by destruct c. }
    destruct Hm as [-> | ->]; destruct (gameState c) eqn:Hg;
      cbn -[hostLogic]; (split; [|split]).
    all: first
      [ by intros [?|[?|?]]
      | by intros ?
      | by (intros _; split_and!; [apply Hsame|done|done])
      | by (split; [intros _; eauto|intros _; left])
      | by (split; [intros Hin; destruct (Hh Hin)|intros [?|[?|?]]])
      | by (intros Hin; destruct (Hh Hin)) ].
Qed.

(** ** Host arbitration *)

Lemma timeIsUp_true (now : Z) (data : RoomData) :
  timeIsUp now data = true ↔ timedOut now data.
Proof.
  unfold timeIsUp, timedOut. destruct (r_startTime data) as [| |t].
  - split; [done|]. by intros (T & ? & _).
  - split; [done|]. by intros (T & ? & _).
  - rewrite andb_true_iff, negb_true_iff, Z.eqb_neq, Z.ltb_lt. split.
    + intros [? ?]. exists t. split_and!; [done|done|lia].
    + intros (T & [= <-] & ? & ?). split; [done|lia].
Qed.

Lemma length_filter_zero {A} (P : A → Prop) `{!∀ x, Decision (P x)}
    (l : list A) :
  length (filter P l) = 0%nat ↔ ∀ x, x ∈ l → ¬ P x.
Proof.
  induction l as [|a l IH].
  - split; [|done]. intros _ x Hx. by apply not_elem_of_nil in Hx.
  - rewrite filter_cons. destruct (decide (P a)) as [Ha|Ha].
    + split; [done|]. intros Hall. destruct (Hall a); [by left|done].
    + rewrite IH. split.
      * intros Hall x [->|Hx]%elem_of_cons; [done|by apply Hall].
      * intros Hall x Hx. apply Hall. by right.
Qed.

Lemma activePlayersCount_zero (data : RoomData) :
  activePlayersCount data = 0%nat
  ↔ ∀ u q, r_players data !! u = Some q → p_status q ≠ Some PPlaying.
Proof.
  unfold activePlayersCount. rewrite length_filter_zero. split.
  - intros Hall u q Hq. apply Hall, elem_of_Object_values. eauto.
  - intros Hall q [u Hu]%elem_of_Object_values. by apply (Hall u).
Qed.

Lemma hostLogic_spec (c : AppState) (rid : string) (now : Z) (data : RoomData)
    (p : PlayerData) :
  userId c ≠ "" → r_players data !! userId c = Some p →
  p_isHost p = Some true → r_status data = RoomPlaying →
  hostLogic c rid now data
  = if timeIsUp now data || bool_decide (activePlayersCount data = 0%nat)
    then [finishWrite rid] else [].
Proof.
  intros Hu Hp Hh Hs. unfold hostLogic, myIsHost.
  by rewrite (truthyStr_ne _ Hu), Hp, Hs; cbn; rewrite Hh.
Qed.

(** Under a playing room the first two blocks issue at most the engine
    start. *)
Lemma deliver_playing_effects (c : AppState) (r : Refs) (now : Z)
    (data : RoomData) (rid : string) :
  roomId c = Some rid → rid ≠ "" → r_status data = RoomPlaying →
  ∃ e, (deliver c r now (Some data)).2 = e ++ hostLogic c rid now data
       ∧ (e = [] ∨ e = [E_audioStart]).
Proof.
  intros Hrid Hne Hs. rewrite (deliver_in_room _ _ _ _ rid) by done.
  unfold reconcile. rewrite Hs.
  destruct (myStatus (userId c) data) as [[]|], (gameState c);
    cbn -[hostLogic].
  all: first [ by (exists [E_audioStart]; split; [reflexivity|right])
             | by (exists (@nil Effect); split; [reflexivity|left]) ].
Qed.

Lemma host_round_end_gen (c : AppState) (r : Refs) (rid : string) (now : Z)
    (data : RoomData) (p : PlayerData) :
  roomId c = Some rid → rid ≠ "" → userId c ≠ "" →
  r_players data !! userId c = Some p → p_isHost p = Some true →
  r_status data = RoomPlaying →
  finishWrite rid ∈ (deliver c r now (Some data)).2
  ↔ timedOut now data ∨ activePlayersCount data = 0%nat.
Proof.
  intros Hrid Hne Hu Hp Hh Hs.
  destruct (deliver_playing_effects c r now data rid Hrid Hne Hs)
    as (e & He & Hstart).
  rewrite He, (hostLogic_spec c rid now data p Hu Hp Hh Hs), elem_of_app.
  destruct (timeIsUp now data || bool_decide (activePlayersCount data = 0%nat))
    eqn:Hb.
  - split; [intros _|intros _; right; by left].
    apply orb_true_iff in Hb as [Hb|Hb].
    + left. by apply timeIsUp_true.
    + right. by apply bool_decide_eq_true in Hb.
  - apply orb_false_iff in Hb as [Hb1 Hb2]. split.
    + intros [Hin|Hin]; [|by apply not_elem_of_nil in Hin].
      destruct Hstart as [-> | ->]; [by apply not_elem_of_nil in Hin|].
      apply list_elem_of_singleton in Hin. discriminate.
    + intros [Ht|Hz].
      * apply timeIsUp_true in Ht. congruence.
      * by apply bool_decide_eq_false in Hb2.
Qed.

(** The guard on [startTime]: without a truthy start time the host ends
    the round by attrition only, however late it is. *)
Lemma hostLogic_without_startTime (c : AppState) (rid : string) (now : Z)
    (data : RoomData) :
  truthyNum (r_startTime data) = false →
  activePlayersCount data ≠ 0%nat →
  hostLogic c rid now data = [].
Proof.
  intros Ht Hn. unfold hostLogic.
  destruct (_ && _ && _); [|done].
  assert (Hup : timeIsUp now data = false).
  { unfold timeIsUp. destruct (r_startTime data) as [| |t]; [done|done|].
    cbn in Ht. by rewrite Ht. }
  by rewrite Hup, (bool_decide_eq_false_2 _ Hn).
Qed.

(** C3.  Host round-end arbitration: a participant with an identifier
    whose own entry has [isHost = true] evaluates a snapshot of a playing
    room that carries its start time [T] (a truthy number, as [startMatch]
    writes it).  The write [status = 'finished'] is issued if and only if
    [now - T > GAME_DURATION_MS] or no entry of the snapshot has status
    ['playing']; the timeout alone is enough whatever the number of
    active players, and so is attrition alone, before the timeout too. *)
Theorem host_round_end (c : AppState) (r : Refs) (rid : string) (now : Z)
    (data : RoomData) (p : PlayerData) (T : Z) :
  roomId c = Some rid → rid ≠ "" → userId c ≠ "" →
  r_players data !! userId c = Some p → p_isHost p = Some true →
  r_status data = RoomPlaying →
  r_startTime data = Num T → T ≠ 0 →
  let issued := finishWrite rid ∈ (deliver c r now (Some data)).2 in
  (issued ↔ now - T > GAME_DURATION_MS ∨ nobodyPlaying data)
  ∧ (now - T > GAME_DURATION_MS → issued)
  ∧ (nobodyPlaying data → issued).
Proof.
  intros Hrid Hne Hu Hp Hh Hs HT HT0 issued.
  assert (Hiff : issued
                 ↔ now - T > GAME_DURATION_MS ∨ nobodyPlaying data).
  { subst issued.
    pose proof (host_round_end_gen c r rid now data p Hrid Hne Hu Hp Hh Hs)
      as Hgen.
    pose proof (activePlayersCount_zero data) as Hzero.
    fold (nobodyPlaying data) in Hzero.
    unfold timedOut in Hgen. rewrite HT in Hgen. split.
    - intros [(T' & [= <-] & _ & ?) | ?%Hzero]%Hgen; [by left|by right].
    - intros [? | ?%Hzero]; apply Hgen; [left; by exists T|by right]. }
  split_and!; [done|tauto|tauto].
Qed.

(** ** Round end on the client *)

Lemma handleGameOver_in_room (c st : AppState) (f : GameScore) (rid : string) :
  roomId c = Some rid → rid ≠ "" → userId c ≠ "" →
  ∃ st' e0, handleGameOver c st f = (st', e0 ++ [roundReport rid (userId c) f])
    ∧ localOnly e0 ∧ gameState st' = SPECTATING
    ∧ roomId st' = roomId st ∧ userId st' = userId st.
Proof.
  intros Hrid Hne Hu. unfold handleGameOver.
  rewrite Hrid, (truthyStr_ne _ Hne), (truthyStr_ne _ Hu). cbn [andb].
  destruct (best (score c) <? current f);
    eexists _, _; (split; [reflexivity|]); (split; [|done]).
  all: intros x Hx; cbn in Hx;
    repeat (apply elem_of_cons in Hx as [-> | Hx]; [by eauto|]);
    by apply not_elem_of_nil in Hx.
Qed.

Lemma hostLogic_not_playing (c : AppState) (rid : string) (now : Z)
    (data : RoomData) :
  r_status data ≠ RoomPlaying → hostLogic c rid now data = [].
Proof.
  intros Hs. unfold hostLogic. rewrite (bool_decide_eq_false_2 _ Hs).
  by rewrite andb_false_r.
Qed.

(** What the report leaves in the document: the own entry with the new
    score and status, everything else as it was. *)
Lemma roundReport_on_document (d : RoomData) (uid : string) (z : Z)
    (s : PlayerStatus) :
  let d' := applyUpdates d [SetPlayerScore uid z; SetPlayerStatus uid s] in
  r_players d' !! uid
  = Some (mkPlayer (p_uid (entryAt uid d)) (p_displayName (entryAt uid d))
            (Some z) (p_isHost (entryAt uid d)) (Some s))
  ∧ (∀ u, u ≠ uid → r_players d' !! u = r_players d !! u)
  ∧ r_status d' = r_status d ∧ r_startTime d' = r_startTime d.
Proof.
  cbn. split_and!; try done.
  - rewrite lookup_insert_eq. unfold entryAt at 1. cbn.
    by rewrite lookup_insert_eq.
  - intros u Hne. by rewrite !lookup_insert_ne.
Qed.

(** C5.  A finished room seen while playing, by a participant in a room:
    the local game over is forced with the score held by [latestScoreRef]
    when the snapshot arrives, whatever render the callback was created
    in; the only document write is the own score with the own status,
    ['finished'] with lives left and ['crashed'] without; the phase moves
    to spectating, and the next snapshot of the finished room moves it to
    game over.  Seen while spectating, the finished room moves the phase
    to game over at once. *)
Theorem finished_room_forces_game_over (c : AppState) (r : Refs) (now : Z)
    (data : RoomData) (rid : string) :
  roomId c = Some rid → rid ≠ "" → userId c ≠ "" →
  r_status data = RoomFinished →
  (gameState c = PLAYING →
   ∃ c1 e0 s,
     deliver c r now (Some data)
     = (c1, r, e0 ++ [E_updateDoc rid
                        [SetPlayerScore (userId c) (current (latestScoreRef r));
                         SetPlayerStatus (userId c) s]])
     ∧ (0 < lives (latestScoreRef r) → s = PFinished)
     ∧ (lives (latestScoreRef r) ≤ 0 → s = PCrashed)
     ∧ localOnly e0
     ∧ (∀ c', sameDeps c' c →
          onSnapshotNext c' rid c r now (Some data)
          = deliver c r now (Some data))
     ∧ gameState c1 = SPECTATING
     ∧ ∀ r' now' data', r_status data' = RoomFinished →
         ∃ c2, deliver c1 r' now' (Some data') = (c2, r', [])
               ∧ gameState c2 = GAME_OVER)
  ∧ (gameState c = SPECTATING →
     deliver c r now (Some data)
     = (setGameState GAME_OVER (setRoomData (Some data) c), r, [])).
Proof.
  intros Hrid Hne Hu Hs.
  assert (Hspect : ∀ st r' now' data', roomId st = Some rid →
            gameState st = SPECTATING → r_status data' = RoomFinished →
            deliver st r' now' (Some data')
            = (setGameState GAME_OVER (setRoomData (Some data') st), r', [])).
  { intros st r' now' data' Hr Hg Hs'.
    rewrite (deliver_in_room _ _ _ _ rid) by done.
    unfold reconcile. rewrite Hs', Hg.
    by rewrite (hostLogic_not_playing st rid) by congruence. }
  split.
  - intros Hg.
    destruct (handleGameOver_in_room c (setRoomData (Some data) c)
                (latestScoreRef r) rid Hrid Hne Hu)
      as (c1 & e0 & Hgo & He0 & Hg1 & Hr1 & Hu1).
    assert (Hd : deliver c r now (Some data)
                 = (c1, r, e0 ++ [roundReport rid (userId c) (latestScoreRef r)])).
    { rewrite (deliver_in_room _ _ _ _ rid) by done.
      unfold reconcile. rewrite Hs, Hg.
      rewrite (hostLogic_not_playing c rid) by congruence.
      cbn -[handleGameOver]. by rewrite Hgo, app_nil_r. }
    exists c1, e0, (if 0 <? lives (latestScoreRef r) then PFinished else PCrashed).
    split_and!; try done.
    + intros Hl. by destruct (Z.ltb_spec 0 (lives (latestScoreRef r))); [|lia].
    + intros Hl. by destruct (Z.ltb_spec 0 (lives (latestScoreRef r))); [lia|].
    + intros c' Hdeps. unfold deliver, roomListener.
      rewrite Hrid, (truthyStr_ne _ Hne). by apply onSnapshotNext_deps.
    + intros r' now' data' Hs'. eexists. split; [|shelve].
      apply Hspect; [|done|done]. by rewrite Hr1.
      Unshelve. done.
  - intros Hg. by apply Hspect.
Qed.

(** ** The score throttle *)

Lemma gapped_lookup (ts : list Z) (i j : nat) (ti tj : Z) :
  gapped ts → (i < j)%nat → ts !! i = Some ti → ts !! j = Some tj →
  SCORE_SYNC_INTERVAL_MS < tj - ti.
Proof.
  revert i j. induction ts as [|t ts IH]; intros i j Hg Hij Hi Hj; [done|].
  destruct Hg as [Hall Hg].
  destruct i as [|i], j as [|j]; try lia.
  - cbn in Hi, Hj. injection Hi as <-.
    rewrite Forall_forall in Hall. apply Hall.
    apply list_elem_of_lookup. eauto.
  - cbn in Hi, Hj. apply (IH i j); [done|lia|done|done].
Qed.

Lemma handleScoreUpdate_cases (c st : AppState) (r : Refs) (now : Z)
    (newScore : GameScore) :
  ∃ st1 r1 e, handleScoreUpdate c st r now newScore = (st1, r1, e)
    ∧ latestScoreRef r1 = newScore
    ∧ roomId st1 = roomId st ∧ userId st1 = userId st
    ∧ ((e = [] ∧ lastScoreSync r1 = lastScoreSync r)
       ∨ (∃ rid, roomId c = Some rid ∧ rid ≠ "" ∧ userId c ≠ ""
            ∧ e = [E_updateDoc rid
                     [SetPlayerScore (userId c) (current newScore)]]
            ∧ lastScoreSync r1 = now
            ∧ SCORE_SYNC_INTERVAL_MS < now - lastScoreSync r)).
Proof.
  unfold handleScoreUpdate.
  destruct (roomId c) as [rid|]; [|eexists _, _, _; split; [done|]; eauto 10].
  destruct (truthyStr rid) eqn:Hr; [|eexists _, _, _; split; [done|]; eauto 10].
  destruct (truthyStr (userId c)) eqn:Hu;
    [|eexists _, _, _; split; [done|]; eauto 10].
  cbn [andb lastScoreSync].
  destruct (Z.ltb_spec SCORE_SYNC_INTERVAL_MS (now - lastScoreSync r));
    eexists _, _, _; (split; [done|]); split_and!; try done; [|by left].
  right. exists rid. apply truthyStr_true in Hr, Hu. done.
Qed.

Lemma deliver_frame (st : AppState) (r : Refs) (now : Z)
    (snap : option RoomData) :
  ∃ st' r' e, deliver st r now snap = (st', r', e)
    ∧ lastScoreSync r' = lastScoreSync r ∧ roomId st' = roomId st.
Proof.
  destruct (truthyId (roomId st)) eqn:Hroom.
  - destruct (truthyId_Some _ Hroom) as (rid & Hrid & Hne).
    destruct snap as [data|].
    + rewrite (deliver_in_room _ _ _ _ rid) by done.
      destruct (reconcile _ _ _ _) as [ph []]; cbn -[hostLogic handleGameOver].
      * eexists _, _, _. done.
      * destruct (handleGameOver_shape st (setRoomData (Some data) st)
                    latestKnownLocalScore) as (st' & e & -> & Hr & _).
        eexists _, _, _. done.
      * eexists _, _, _. done.
    + unfold deliver, roomListener. rewrite Hrid, (truthyStr_ne _ Hne).
      eexists _, _, _. done.
  - rewrite deliver_no_room by done. eexists _, _, _. done.
Qed.

Lemma step_frame (st : AppState) (r : Refs) (ev : Event) :
  ∃ st' r' e, render (step st r ev) = (st', r', e)
    ∧ (¬ isScoreUpdate ev → lastScoreSync r' = lastScoreSync r)
    ∧ (¬ entersRoom ev → roomId st = None → roomId st' = None).
Proof.
  destruct ev; cbn [step].
  - destruct (deliver_frame st r now snap) as (st' & r' & e & -> & Hl & Hr).
    frame_done.
  - unfold roomListener. destruct (roomId st) as [rid|] eqn:Hrid;
      [destruct (truthyStr rid)|]; frame_done.
  - destruct (handleScoreUpdate_cases st st r now newScore)
      as (st' & r' & e & -> & _ & Hr & _).
    frame_done.
  - destruct (handleGameOver_shape st st finalScore)
      as (st' & e & -> & Hr & _).
    frame_done.
  - destruct (handleCreateRoom _ _ _ _ _ _) as [[st' store'] e].
    frame_done.
  - destruct (handleJoinRoom _ _ _ _ _) as [[st' store'] e].
    frame_done.
  - unfold handleStartMatch.
    destruct (roomId st) as [rid|] eqn:Hrid; [|frame_done].
    destruct (roomData st) as [rd|]; [|frame_done].
    destruct (truthyStr rid); cbn; [|frame_done].
    destruct (updateDoc _ _ _); frame_done.
  - unfold handleRestartLobby.
    destruct (roomId st) as [rid|] eqn:Hrid; [|frame_done].
    destruct (roomData st) as [rd|]; [|frame_done].
    destruct (truthyStr rid); cbn; [|frame_done].
    destruct (updateDoc _ _ _); frame_done.
  - frame_done.
  - frame_done.
  - frame_done.
  - frame_done.
Qed.

Lemma reportTimes_gapped (st : AppState) (r : Refs) (evs : list Event) :
  Forall (λ t, SCORE_SYNC_INTERVAL_MS < t - lastScoreSync r)
    (reportTimes (runClient st r evs))
  ∧ gapped (reportTimes (runClient st r evs)).
Proof.
  revert st r. induction evs as [|ev evs IH]; intros st r; [by split|].
  cbn [runClient].
  destruct (step_frame st r ev) as (st' & r' & e & Hstep & Hlast & _).
  rewrite Hstep. destruct (IH st' r') as [Hall Hg].
  assert (Hother : ¬ isScoreUpdate ev →
            Forall (λ t, SCORE_SYNC_INTERVAL_MS < t - lastScoreSync r)
              (reportTimes ((st, ev, st', e) :: runClient st' r' evs))
            ∧ gapped (reportTimes ((st, ev, st', e) :: runClient st' r' evs))).
  { intros Hn. rewrite <- (Hlast Hn).
    destruct ev; cbn [reportTimes]; try (by split). }
  destruct ev; try (apply Hother; by intros []). clear Hother.
  cbn [step render] in Hstep.
  destruct (handleScoreUpdate_cases st st r now newScore)
    as (st1 & r1 & e1 & Hh & _ & _ & _ & Hcase).
  rewrite Hh in Hstep. cbn in Hstep. injection Hstep as <- <- <-.
  cbn [lastScoreSync] in Hall.
  destruct Hcase as [[-> Hl] | (rid & _ & _ & _ & -> & Hl & Hgap)];
    cbn [reportTimes].
  - split; [|exact Hg]. rewrite <- Hl. exact Hall.
  - rewrite Hl in Hall, Hg |- *. split; [constructor; [done|]|split; [exact Hall|exact Hg]].
    eapply Forall_impl; [exact Hall|]. cbn. intros t Ht.
    unfold SCORE_SYNC_INTERVAL_MS in *. lia.
Qed.

Lemma runClient_score_writes (st : AppState) (r : Refs) (evs : list Event) :
  Forall (λ '(before, ev, after, e),
            ∀ now newScore, ev = EvScoreUpdate now newScore →
              e = []
              ∨ ∃ rid, roomId before = Some rid
                  ∧ e = [E_updateDoc rid
                           [SetPlayerScore (userId before)
                              (current newScore)]])
    (runClient st r evs).
Proof.
  revert st r. induction evs as [|ev evs IH]; intros st r; [constructor|].
  cbn [runClient].
  destruct (render (step st r ev)) as [[st' r'] e] eqn:Hstep.
  constructor; [|apply IH].
  intros now newScore ->. cbn [step render] in Hstep.
  destruct (handleScoreUpdate_cases st st r now newScore)
    as (st1 & r1 & e1 & Hh & _ & _ & _ & Hcase).
  rewrite Hh in Hstep. cbn in Hstep. injection Hstep as <- <- <-.
  destruct Hcase as [[-> _] | (rid & Hrid & _ & _ & -> & _)]; eauto.
Qed.

(** C8.  The score report is throttled.  One call of [handleScoreUpdate]
    in a room: more than 2000 ms after [lastScoreSync] it writes the own
    score field with the value just received and moves [lastScoreSync] to
    now; otherwise it writes nothing and only keeps the value as the
    latest.  In every run of the client, any two reports are more than
    2000 ms apart, and each report carries the score of the update that
    issued it. *)
Theorem score_report_throttled :
  (∀ (c st : AppState) (r : Refs) (now : Z) (newScore : GameScore)
     (rid : string),
     roomId c = Some rid → rid ≠ "" → userId c ≠ "" →
     ∃ st',
       score st' = mkScore (current newScore) (best (score st))
                     (coins newScore) (lives newScore)
       ∧ (SCORE_SYNC_INTERVAL_MS < now - lastScoreSync r →
          handleScoreUpdate c st r now newScore
          = (st', mkRefs now newScore,
             [E_updateDoc rid
                [SetPlayerScore (userId c) (current newScore)]]))
       ∧ (now - lastScoreSync r ≤ SCORE_SYNC_INTERVAL_MS →
          handleScoreUpdate c st r now newScore
          = (st', mkRefs (lastScoreSync r) newScore, [])))
  ∧ (∀ (st : AppState) (r : Refs) (evs : list Event) (i j : nat) (ti tj : Z),
       (i < j)%nat →
       reportTimes (runClient st r evs) !! i = Some ti →
       reportTimes (runClient st r evs) !! j = Some tj →
       SCORE_SYNC_INTERVAL_MS < tj - ti)
  ∧ (∀ (st : AppState) (r : Refs) (evs : list Event),
       Forall (λ '(before, ev, after, e),
                 ∀ now newScore, ev = EvScoreUpdate now newScore →
                   e = []
                   ∨ ∃ rid, roomId before = Some rid
                       ∧ e = [E_updateDoc rid
                                [SetPlayerScore (userId before)
                                   (current newScore)]])
         (runClient st r evs)).
Proof.
  split_and!.
  - intros c st r now newScore rid Hrid Hne Hu.
    eexists. split; [|split].
    2: { intros Hgap. unfold handleScoreUpdate.
         rewrite Hrid, (truthyStr_ne _ Hne), (truthyStr_ne _ Hu).
         cbn [andb lastScoreSync latestScoreRef].
         destruct (Z.ltb_spec SCORE_SYNC_INTERVAL_MS (now - lastScoreSync r));
           [reflexivity|lia]. }
    + done.
    + intros Hgap. unfold handleScoreUpdate.
      rewrite Hrid, (truthyStr_ne _ Hne), (truthyStr_ne _ Hu).
      cbn [andb lastScoreSync latestScoreRef].
      destruct (Z.ltb_spec SCORE_SYNC_INTERVAL_MS (now - lastScoreSync r));
        [lia|reflexivity].
  - intros st r evs i j ti tj. apply gapped_lookup, reportTimes_gapped.
  - apply runClient_score_writes.
Qed.

(** ** Subscription error *)

(** C9.  A subscription error: the handler clears the room reference and
    sets the phase to menu, and does nothing else but log.  The effect
    that runs next subscribes to nothing; a snapshot has no listener to
    reach; and in every run from there the client stays without a room
    and without a subscription until the user creates or joins one. *)
Theorem subscription_error_abandons_room (st : AppState) :
  let st' := (onSnapshotError st).1 in
  roomId st' = None ∧ gameState st' = MENU
  ∧ (onSnapshotError st).2 = [E_consoleError "Room sync error:"]
  ∧ roomListener st' st' = (setRoomData None st', None)
  ∧ (∀ r now snap, deliver st' r now snap = (setRoomData None st', r, []))
  ∧ (∀ r evs, Forall (λ ev, ¬ entersRoom ev) evs →
       Forall (λ '(before, ev, after, e),
                 roomId after = None ∧ (roomListener after after).2 = None)
         (runClient st' r evs)).
Proof.
  cbn. split_and!; try done.
  intros r evs.
  assert (Hgen : ∀ evs s r, roomId s = None →
            Forall (λ ev, ¬ entersRoom ev) evs →
            Forall (λ '(before, ev, after, e),
                      roomId after = None
                      ∧ (roomListener after after).2 = None)
              (runClient s r evs)).
  { clear. induction evs as [|ev evs IH]; intros s r Hs Hevs; [constructor|].
    apply Forall_cons in Hevs as [Hev Hevs]. cbn [runClient].
    destruct (step_frame s r ev) as (s' & r' & e & -> & _ & Hroom).
    specialize (Hroom Hev Hs).
    constructor; [|by apply IH].
    split; [done|]. unfold roomListener. by rewrite Hroom. }
  by apply Hgen.
Qed.

(** ** The host flag *)

Lemma hostCount_zero (data : RoomData) : hostCount data = 0%nat ↔ noHost data.
Proof.
  unfold hostCount, noHost. rewrite length_filter_zero. split.
  - intros Hall u q Hq. apply Hall, elem_of_Object_values. eauto.
  - intros Hall q [u Hu]%elem_of_Object_values. by apply (Hall u).
Qed.

Lemma applyField_noHost (d : RoomData) (f : FieldUpdate) :
  noHost d → ¬ grantsHost f → noHost (applyField d f).
Proof.
  intros Hd Hf. destruct f as [s|t|u p|u s|u z]; cbn; [done|done|..];
    intros v q; cbn; (destruct (decide (v = u)) as [->|Hne];
      [rewrite lookup_insert_eq; intros [= <-]
      |rewrite lookup_insert_ne by done; apply Hd]).
  - exact Hf.
  - cbn. unfold entryAt. destruct (r_players d !! u) as [q|] eqn:Hq; cbn;
      [by apply (Hd u)|done].
  - cbn. unfold entryAt. destruct (r_players d !! u) as [q|] eqn:Hq; cbn;
      [by apply (Hd u)|done].
Qed.

Lemma applyUpdates_noHost (d : RoomData) (ups : list FieldUpdate) :
  noHost d → Forall (λ f, ¬ grantsHost f) ups → noHost (applyUpdates d ups).
Proof.
  revert d. induction ups as [|f ups IH]; intros d Hd Hups; [done|].
  apply Forall_cons in Hups as [Hf Hups].
  cbn. apply IH; [|done]. by apply applyField_noHost.
Qed.

Lemma resetPlayers_grants (s : PlayerStatus) (pids : list string) :
  Forall (λ f, ¬ grantsHost f) (resetPlayers s pids).
Proof.
  induction pids as [|pid pids IH]; [constructor|].
  rewrite resetPlayers_cons. repeat (constructor; [by intros []|]). done.
Qed.

Lemma appUpdate_grants (ups : list FieldUpdate) :
  appUpdate ups → Forall (λ f, ¬ grantsHost f) ups.
Proof.
  destruct 1; unfold startMatchUpdates, restartLobbyUpdates;
    rewrite ?Forall_app; repeat split;
    try apply resetPlayers_grants;
    repeat (constructor; [by cbn; auto|]); constructor.
Qed.

Lemma evolves_noHost (d d' : RoomData) : evolves d d' → noHost d → noHost d'.
Proof.
  induction 1 as [d|d d1 d' (ups & Hups & ->) _ IH]; [done|].
  intros Hd. apply IH, applyUpdates_noHost; [done|]. by apply appUpdate_grants.
Qed.

Lemma hostLogic_noHost (c : AppState) (rid : string) (now : Z)
    (data : RoomData) :
  noHost data → hostLogic c rid now data = [].
Proof.
  intros Hd. unfold hostLogic, myIsHost.
  destruct (r_players data !! userId c) as [p|] eqn:Hp; cbn.
  - destruct (p_isHost p) as [[]|] eqn:Hh; cbn;
      rewrite ?andb_false_r; try done.
    by destruct (Hd _ _ Hp).
  - by rewrite andb_false_r.
Qed.

(** C10.  [join] writes the caller's entry with [isHost = false] whatever
    was there.  A room just created has one host, its creator; when the
    creator, under the same identifier, joins that room, the join goes
    through and the record is left with no entry flagged host.  From then
    on, whatever updates clients apply to the document, the host logic of
    no participant ever issues the round-end write. *)
Theorem creator_rejoin_drops_host (c cj st stj : AppState)
    (store : gmap string RoomData) (newRoomId : string) (now : Z)
    (playerName playerName' : string) :
  userId c ≠ "" → userId cj = userId c →
  let created := handleCreateRoom c st store newRoomId now playerName in
  let joined := handleJoinRoom cj stj created.1.2 newRoomId playerName' in
  (∃ d0, getDoc created.1.2 newRoomId = Some d0
         ∧ hostCount d0 = 1%nat ∧ myIsHost (userId c) d0 = true)
  ∧ ∃ d, getDoc joined.1.2 newRoomId = Some d
      ∧ r_players d !! userId c
        = Some (mkPlayer (Some (userId c)) (Some playerName') (Some 0)
                  (Some false) (Some PReady))
      ∧ hostCount d = 0%nat
      ∧ ∀ d', evolves d d' →
          ∀ c' rid now', hostLogic c' rid now' d' = [].
Proof.
  intros Hu Hj created joined.
  set (d0 := mkRoom newRoomId now RoomWaiting Undefined
               {[ userId c := newPlayer (userId c) playerName true ]}).
  assert (Hc : created = (setGameState LOBBY (setRoomId (Some newRoomId) st),
                          <[newRoomId := d0]> store, [])).
  { subst created. unfold handleCreateRoom.
    by rewrite (truthyStr_ne _ Hu). }
  assert (Hg0 : getDoc created.1.2 newRoomId = Some d0).
  { rewrite Hc. apply lookup_insert_eq. }
  split.
  - exists d0. split_and!; [done| |].
    + unfold hostCount, Object_values. cbn.
      by rewrite map_to_list_singleton.
    + unfold myIsHost. cbn. by rewrite lookup_singleton_eq.
  - assert (Hsize : Z.of_nat (size (r_players d0)) < MAX_PLAYERS_PER_ROOM).
    { cbn. rewrite map_size_singleton. unfold MAX_PLAYERS_PER_ROOM. lia. }
    assert (Hu' : userId cj ≠ "") by by rewrite Hj.
    set (d := applyUpdates d0
                [SetPlayer (userId cj) (newPlayer (userId cj) playerName' false)]).
    assert (Hjoin : joined
                    = (setGameState LOBBY (setRoomId (Some newRoomId) stj),
                       <[newRoomId := d]> created.1.2, [])).
    { subst joined. by apply handleJoinRoom_success. }
    assert (Hno : noHost d).
    { intros u p. subst d. cbn. rewrite Hj, insert_singleton_eq.
      destruct (decide (u = userId c)) as [->|Hne].
      - rewrite lookup_singleton_eq. by intros [= <-].
      - by rewrite lookup_singleton_ne. }
    exists d. rewrite Hjoin. cbn [fst snd]. split_and!.
    + apply lookup_insert_eq.
    + subst d. cbn. rewrite Hj. apply lookup_insert_eq.
    + by apply hostCount_zero.
    + intros d' Hev c' rid now'. apply hostLogic_noHost.
      by apply (evolves_noHost d).
Qed.

(** ** The updates are all the client writes *)

Lemma handleGameOver_effects (c st : AppState) (f : GameScore) :
  ∀ rid ups, E_updateDoc rid ups ∈ (handleGameOver c st f).2 → appUpdate ups.
Proof.
  intros rid ups. unfold handleGameOver.
  destruct (best (score c) <? current f);
    destruct (roomId c) as [rid'|];
    try destruct (truthyStr rid' && truthyStr (userId c)); cbn;
    intros Hin;
    repeat (apply elem_of_cons in Hin as [Heq | Hin];
            [try discriminate; injection Heq as -> ->; constructor|]);
    by apply not_elem_of_nil in Hin.
Qed.

(** Every fire-and-forget write of a step is one of the listed updates. *)
Lemma step_effects_appUpdate (st : AppState) (r : Refs) (ev : Event) :
  ∀ rid ups, E_updateDoc rid ups ∈ (step st r ev).2 → appUpdate ups.
Proof.
  intros rid ups. destruct ev; cbn [step].
  - destruct (truthyId (roomId st)) eqn:Hroom.
    + destruct (truthyId_Some _ Hroom) as (rid' & Hrid & Hne).
      destruct snap as [data|].
      * rewrite (deliver_in_room _ _ _ _ rid') by done.
        pose proof (handleGameOver_effects st (setRoomData (Some data) st))
          as Hgo.
        destruct (reconcile _ _ _ _) as [ph []]; cbn -[hostLogic handleGameOver].
        -- intros [Heq|Hin]%elem_of_cons; [discriminate|].
           destruct (hostLogic_cases st rid' now data) as [Hh|Hh];
             rewrite Hh in Hin; [by apply not_elem_of_nil in Hin|].
           apply list_elem_of_singleton in Hin. injection Hin as -> ->.
           constructor.
        -- specialize (Hgo latestKnownLocalScore rid ups).
           destruct (handleGameOver _ _ _) as [st' e]. cbn in Hgo |- *.
           intros [Hin|Hin]%elem_of_app; [by apply Hgo|].
           destruct (hostLogic_cases st rid' now data) as [Hh|Hh];
             rewrite Hh in Hin; [by apply not_elem_of_nil in Hin|].
           apply list_elem_of_singleton in Hin. injection Hin as -> ->.
           constructor.
        -- intros Hin.
           destruct (hostLogic_cases st rid' now data) as [Hh|Hh];
             rewrite Hh in Hin; [by apply not_elem_of_nil in Hin|].
           apply list_elem_of_singleton in Hin. injection Hin as -> ->.
           constructor.
      * unfold deliver, roomListener. rewrite Hrid, (truthyStr_ne _ Hne).
        cbn. intros Hin. by apply not_elem_of_nil in Hin.
    + rewrite deliver_no_room by done. cbn.
      intros Hin. by apply not_elem_of_nil in Hin.
  - unfold roomListener. destruct (roomId st) as [rid'|];
      [destruct (truthyStr rid')|]; cbn; intros Hin;
      try (by apply not_elem_of_nil in Hin).
    apply list_elem_of_singleton in Hin. discriminate.
  - destruct (handleScoreUpdate_cases st st r now newScore)
      as (st' & r' & e & -> & _ & _ & _ & [[-> _]|(rid' & _ & _ & _ & -> & _)]);
      cbn; intros Hin; [by apply not_elem_of_nil in Hin|].
    apply list_elem_of_singleton in Hin. injection Hin as -> ->. constructor.
  - pose proof (handleGameOver_effects st st finalScore rid ups) as Hgo.
    destruct (handleGameOver _ _ _) as [st' e]. exact Hgo.
  - unfold handleCreateRoom. destruct (negb _); cbn;
      intros Hin; by apply not_elem_of_nil in Hin.
  - unfold handleJoinRoom. destruct (negb _); cbn;
      [intros Hin; by apply not_elem_of_nil in Hin|].
    destruct (getDoc store id) as [data|]; cbn;
      [|intros Hin; apply list_elem_of_singleton in Hin; discriminate].
    destruct (_ <=? _); cbn;
      [intros Hin; apply list_elem_of_singleton in Hin; discriminate|].
    destruct (r_status data); try destruct (updateDoc _ _ _); cbn; intros Hin;
      try (by apply not_elem_of_nil in Hin);
      apply list_elem_of_singleton in Hin; discriminate.
  - unfold handleStartMatch.
    destruct (roomId st) as [rid'|], (roomData st) as [rd|]; cbn;
      try (intros Hin; by apply not_elem_of_nil in Hin).
    destruct (negb _); try destruct (updateDoc _ _ _); cbn; intros Hin;
      try (by apply not_elem_of_nil in Hin);
      apply list_elem_of_singleton in Hin; discriminate.
  - unfold handleRestartLobby.
    destruct (roomId st) as [rid'|], (roomData st) as [rd|]; cbn;
      try (intros Hin; by apply not_elem_of_nil in Hin).
    destruct (negb _); try destruct (updateDoc _ _ _); cbn; intros Hin;
      try (by apply not_elem_of_nil in Hin);
      apply list_elem_of_singleton in Hin; discriminate.
  - cbn. intros Hin. by apply not_elem_of_nil in Hin.
  - cbn. intros Hin. by apply not_elem_of_nil in Hin.
  - cbn. intros Hin. apply list_elem_of_singleton in Hin. discriminate.
  - cbn. intros Hin. by apply not_elem_of_nil in Hin.
Qed.

Lemma lobby_actions_appUpdate (c st : AppState) (store : gmap string RoomData)
    (id playerName : string) (now : Z) :
  storeUpdated store (handleJoinRoom c st store id playerName).1.2
  ∧ storeUpdated store (handleStartMatch c st store now).1.2
  ∧ storeUpdated store (handleRestartLobby c st store).1.2.
Proof.
  split_and!.
  - destruct (handleJoinRoom_store c st store id playerName)
      as [-> | (data & Hd & _ & ->)]; [by left|].
    right. eexists _, _, _. split_and!; [exact Hd|constructor|done].
  - unfold handleStartMatch.
    destruct (roomId c) as [rid|], (roomData c) as [rd|]; try by left.
    destruct (negb _); [by left|]. unfold updateDoc.
    destruct (store !! rid) as [d|] eqn:Hd; [|by left].
    right. eexists _, _, _. split_and!; [exact Hd|constructor|done].
  - unfold handleRestartLobby.
    destruct (roomId c) as [rid|], (roomData c) as [rd|]; try by left.
    destruct (negb _); [by left|]. unfold updateDoc.
    destruct (store !! rid) as [d|] eqn:Hd; [|by left].
    right. eexists _, _, _. split_and!; [exact Hd|constructor|done].
Qed.

(** ** The start time of a playing room *)

(** A created room is waiting; every update keeps the property as long as
    the clock of a match start is not the epoch itself. *)
Lemma appUpdate_startTimeSet (d : RoomData) (ups : list FieldUpdate) :
  appUpdate ups → SetStartTime (Num 0) ∉ ups →
  startTimeSet d → startTimeSet (applyUpdates d ups).
Proof.
  intros Hups Hclock Hd. destruct Hups as [uid n|now rd|rd|uid z|uid z s|];
    try exact Hd.
  - destruct (roundUpdates_spec d rd RoomPlaying (Num now) PPlaying)
      as (_ & Ht & _).
    unfold startTimeSet, startMatchUpdates. rewrite Ht. intros _. cbn.
    apply negb_true_iff, Z.eqb_neq. intros ->. apply Hclock.
    unfold startMatchUpdates. right. left.
  - destruct (roundUpdates_spec d rd RoomWaiting Null PReady) as (Hs & _).
    unfold startTimeSet, restartLobbyUpdates. by rewrite Hs.
  - by unfold startTimeSet.
Qed.

(** A room as [handleCreateRoom] writes it, after any sequence of updates
    of the client whose match starts read a clock other than 0: while it
    is playing it carries a truthy start time. *)
Lemma created_room_startTimeSet (c st : AppState)
    (store : gmap string RoomData) (newRoomId : string) (now : Z)
    (playerName : string) (d : RoomData) (upss : list (list FieldUpdate)) :
  userId c ≠ "" →
  getDoc (handleCreateRoom c st store newRoomId now playerName).1.2 newRoomId
  = Some d →
  Forall appUpdate upss →
  Forall (λ ups, SetStartTime (Num 0) ∉ ups) upss →
  startTimeSet (foldl applyUpdates d upss).
Proof.
  intros Hu Hd Hall Hclock.
  assert (Hd0 : startTimeSet d).
  { unfold handleCreateRoom in Hd. rewrite (truthyStr_ne _ Hu) in Hd.
    cbn in Hd. unfold getDoc, setDoc in Hd. rewrite lookup_insert_eq in Hd.
    injection Hd as <-. by unfold startTimeSet. }
  clear Hd. revert d Hd0.
  induction upss as [|ups upss IH]; intros d Hd0; [done|].
  apply Forall_cons in Hall as [Hups Hall].
  apply Forall_cons in Hclock as [Hc Hclock].
  cbn. apply IH; [done|done|]. by apply appUpdate_startTimeSet.
Qed.

(** * Worked instances *)

(** Alice has crashed and is spectating; a snapshot of the playing room
    leaves her there. *)
Lemma no_resurrection_witness :
  r_status exCrashed = RoomPlaying ∧ outOfRound "alice" exCrashed
  ∧ ∀ x, x ∈ runClient (exAlice SPECTATING) exRefs
               [EvSnapshot 6000 (Some exCrashed)] →
         gameState x.1.2 = SPECTATING ∧ E_audioStart ∉ x.2.
Proof.
  split; [reflexivity|]. split; [left; reflexivity|].
  intros x Hx.
  pose proof (no_resurrection (exAlice SPECTATING) exRefs
                [EvSnapshot 6000 (Some exCrashed)]) as H.
  rewrite Forall_forall in H. specialize (H x Hx).
  cbn [runClient] in Hx.
  destruct (render (step (exAlice SPECTATING) exRefs
                      (EvSnapshot 6000 (Some exCrashed)))) as [[st' r'] e].
  apply list_elem_of_singleton in Hx. subst x.
  destruct (H 6000 exCrashed eq_refl eq_refl (or_introl eq_refl))
    as (Hg & _ & He).
  split; [exact Hg|exact He].
Defined.

(** Bob in the lobby sees the room playing twice in a row: started once. *)
Lemma idempotent_reconciliation_witness :
  let x1 := deliver (exBob LOBBY) exRefs 5100 (Some exPlaying) in
  let x2 := deliver x1.1.1 x1.1.2 5200 (Some exPlaying) in
  E_audioStart ∈ x1.2 ∧ gameState x1.1.1 = PLAYING
  ∧ arbitrationOnly x2.2 ∧ x2.1.2 = x1.1.2.
Proof.
  intros x1 x2.
  destruct (idempotent_reconciliation (exBob LOBBY) exRefs 5100 5200 exPlaying)
    as [(Ha & Hr & _) Hpart].
  destruct (Hpart eq_refl eq_refl (or_introl eq_refl)) as (Hiff & Hst & _).
  assert (Hin : E_audioStart ∈ x1.2) by (apply Hiff; left; reflexivity).
  split; [exact Hin|]. split; [exact (Hst Hin)|]. split; [exact Ha|exact Hr].
Defined.

(** Alice, host, with Bob still playing: no round end at 6000, round end
    one millisecond after the three minutes; with Bob out as well, round
    end at 6000. *)
Lemma host_round_end_witness :
  finishWrite "ABC123"
    ∈ (deliver (exAlice SPECTATING) exRefs (5000 + GAME_DURATION_MS + 1)
         (Some exCrashed)).2
  ∧ finishWrite "ABC123"
    ∈ (deliver (exAlice SPECTATING) exRefs 6000 (Some exAllOut)).2
  ∧ finishWrite "ABC123"
    ∉ (deliver (exAlice SPECTATING) exRefs 6000 (Some exCrashed)).2.
Proof.
  assert (Hne : "ABC123" ≠ "") by discriminate.
  assert (Hu : "alice" ≠ "") by discriminate.
  assert (H0 : 5000 ≠ 0) by discriminate.
  assert (Hbob : r_players exCrashed !! "bob"
                 = Some (mkPlayer (Some "bob") (Some "Bob") (Some 0)
                           (Some false) (Some PPlaying)))
    by (vm_compute; reflexivity).
  assert (Hout : r_players exAllOut
                 = <["bob" := mkPlayer (Some "bob") (Some "Bob") (Some 70)
                                (Some false) (Some PFinished)]>
                     {[ "alice" := mkPlayer (Some "alice") (Some "Alice")
                                     (Some 40) (Some true) (Some PCrashed) ]})
    by (vm_compute; reflexivity).
  split; [|split].
  - destruct (host_round_end (exAlice SPECTATING) exRefs "ABC123"
                (5000 + GAME_DURATION_MS + 1) exCrashed
                (mkPlayer (Some "alice") (Some "Alice") (Some 40) (Some true)
                   (Some PCrashed)) 5000
                eq_refl Hne Hu eq_refl eq_refl eq_refl eq_refl H0)
      as (_ & Htimeout & _).
    apply Htimeout. unfold GAME_DURATION_MS. lia.
  - destruct (host_round_end (exAlice SPECTATING) exRefs "ABC123" 6000
                exAllOut
                (mkPlayer (Some "alice") (Some "Alice") (Some 40) (Some true)
                   (Some PCrashed)) 5000
                eq_refl Hne Hu eq_refl eq_refl eq_refl eq_refl H0)
      as (_ & _ & Hattrition).
    apply Hattrition. intros u q Hq. rewrite Hout in Hq.
    apply lookup_insert_Some in Hq as [[_ <-] | [_ Hq]]; [discriminate|].
    apply lookup_singleton_Some in Hq as [_ <-]. discriminate.
  - destruct (host_round_end (exAlice SPECTATING) exRefs "ABC123" 6000
                exCrashed
                (mkPlayer (Some "alice") (Some "Alice") (Some 40) (Some true)
                   (Some PCrashed)) 5000
                eq_refl Hne Hu eq_refl eq_refl eq_refl eq_refl H0)
      as (Hiff & _).
    intros Hin. apply Hiff in Hin. destruct Hin as [Ht | Hz].
    + unfold GAME_DURATION_MS in Ht. lia.
    + by destruct (Hz "bob" _ Hbob).
Defined.

(** Carol tries a missing, a full, a playing and a waiting room. *)
Lemma handleJoinRoom_outcomes_witness :
  handleJoinRoom exCarol exCarol exRooms "NOROOM" "Carol"
  = (exCarol, exRooms, [joinAlert RoomNotFound])
  ∧ handleJoinRoom exCarol exCarol exRooms "FULL00" "Carol"
    = (exCarol, exRooms, [joinAlert RoomFull])
  ∧ handleJoinRoom exCarol exCarol exRooms "PLAY00" "Carol"
    = (exCarol, exRooms, [joinAlert RoomInProgress])
  ∧ ∃ store' d',
      handleJoinRoom exCarol exCarol exRooms "ABC123" "Carol"
      = (setGameState LOBBY (setRoomId (Some "ABC123") exCarol), store', [])
      ∧ getDoc store' "ABC123" = Some d'
      ∧ (r_players d' !! "carol") ≫= p_status = Some PReady.
Proof.
  assert (Hu : userId exCarol ≠ "") by discriminate.
  split_and!.
  - apply (handleJoinRoom_outcomes exCarol exCarol exRooms "NOROOM" "Carol" Hu).
    reflexivity.
  - apply (proj2 (handleJoinRoom_outcomes exCarol exCarol exRooms "FULL00"
                    "Carol" Hu) exFull eq_refl).
    vm_compute. discriminate.
  - apply (proj2 (handleJoinRoom_outcomes exCarol exCarol exRooms "PLAY00"
                    "Carol" Hu) exPlaying eq_refl); [|reflexivity].
    vm_compute. reflexivity.
  - destruct (proj2 (handleJoinRoom_outcomes exCarol exCarol exRooms "ABC123"
                       "Carol" Hu) exRoom eq_refl) as (_ & _ & Hopen).
    destruct Hopen as (store' & d' & Hj & Hg & _ & Hme & _);
      [vm_compute; reflexivity|left; reflexivity|].
    exists store', d'. split; [exact Hj|]. split; [exact Hg|].
    cbn in Hme. rewrite Hme. reflexivity.
Defined.

(** Bob is playing when the round ends: the 70 points of the ref are
    reported, not the 0 of the rendered score. *)
Lemma finished_room_forces_game_over_witness :
  ∃ c1 e0,
    deliver (exBob PLAYING) exBobRefs 185100 (Some exFinished)
    = (c1, exBobRefs,
       e0 ++ [E_updateDoc "ABC123"
                [SetPlayerScore "bob" 70; SetPlayerStatus "bob" PFinished]])
    ∧ gameState c1 = SPECTATING
    ∧ gameState (deliver c1 exBobRefs 185200 (Some exFinished)).1.1
      = GAME_OVER.
Proof.
  assert (Hne : "ABC123" ≠ "") by discriminate.
  assert (Hu : userId (exBob PLAYING) ≠ "") by discriminate.
  destruct (finished_room_forces_game_over (exBob PLAYING) exBobRefs 185100
              exFinished "ABC123" eq_refl Hne Hu eq_refl) as [Hplaying _].
  destruct (Hplaying eq_refl)
    as (c1 & e0 & s & Hd & Hs & _ & _ & _ & Hg & Hnext).
  exists c1, e0. rewrite (Hs ltac:(reflexivity)) in Hd.
  split; [exact Hd|]. split; [exact Hg|].
  destruct (Hnext exBobRefs 185200 exFinished eq_refl) as (c2 & -> & Hg2).
  exact Hg2.
Defined.

(** Alice restarts the lobby of the finished room, her snapshot listing
    every entry. *)
Lemma handleRestartLobby_resets_witness :
  ∃ store' d',
    handleRestartLobby exAliceOver exAliceOver exFinishedStore
    = (exAliceOver, store', [])
    ∧ getDoc store' "ABC123" = Some d'
    ∧ lobbyReset d'.
Proof.
  assert (Hne : "ABC123" ≠ "") by discriminate.
  assert (Hd : getDoc exFinishedStore "ABC123" = Some exFinished)
    by (vm_compute; reflexivity).
  destruct (handleRestartLobby_resets exAliceOver exAliceOver
              exFinishedStore "ABC123" exFinished exFinished
              eq_refl Hne eq_refl Hd)
    as (store' & d' & Hh & _ & Hg & _ & _ & _ & _ & Hreset & _).
  exists store', d'. split; [exact Hh|]. split; [exact Hg|].
  apply Hreset. intros u p Hu Hp. rewrite Hu in Hp. discriminate.
Defined.

(** Alice restarts the lobby from the snapshot of the finished room,
    which does not list Carol: Carol stays playing with 55 points. *)
Lemma handleRestartLobby_resets_counterexample :
  ∃ store' d',
    handleRestartLobby exAliceOver exAliceOver exLateStore
    = (exAliceOver, store', [])
    ∧ getDoc store' "ABC123" = Some d'
    ∧ r_status d' = RoomWaiting
    ∧ r_players d' !! "carol"
      = Some (mkPlayer (Some "carol") (Some "Carol") (Some 55) (Some false)
                (Some PPlaying))
    ∧ ¬ lobbyReset d'.
Proof.
  eexists _, _. split; [vm_compute; reflexivity|].
  split; [vm_compute; reflexivity|].
  split; [reflexivity|].
  assert (Hcarol : ∀ d,
            r_players d !! "carol"
            = Some (mkPlayer (Some "carol") (Some "Carol") (Some 55)
                      (Some false) (Some PPlaying)) →
            ¬ lobbyReset d).
  { intros d Hc (_ & _ & Hall). by destruct (Hall _ _ Hc). }
  split; [vm_compute; reflexivity|].
  apply Hcarol. vm_compute. reflexivity.
Defined.

(** Alice starts the match at 5000. *)
Lemma handleStartMatch_batched_reset_witness :
  ∃ d',
    handleStartMatch (exAlice LOBBY) (exAlice LOBBY) exStore 5000
    = (exAlice LOBBY, <["ABC123" := d']> exStore, [])
    ∧ r_status d' = RoomPlaying ∧ r_startTime d' = Num 5000
    ∧ allReset PPlaying d'.
Proof.
  assert (Hne : "ABC123" ≠ "") by discriminate.
  destruct (handleStartMatch_batched_reset (exAlice LOBBY) (exAlice LOBBY)
              exStore 5000 "ABC123" exRoom exRoom eq_refl Hne eq_refl eq_refl)
    as (d' & _ & Hh & Hs & Ht & _ & _ & _ & _ & Hall).
  exists d'. split; [exact Hh|]. split; [exact Hs|]. split; [exact Ht|].
  apply Hall. intros u p Hu Hp. rewrite Hu in Hp. discriminate.
Defined.

(** Alice starts the match from a snapshot that does not list Carol, who
    has joined: Carol, in the room, stays ready. *)
Lemma handleStartMatch_batched_reset_counterexample :
  ∃ store' d',
    handleStartMatch (exAlice LOBBY) (exAlice LOBBY) exJoinedStore 5000
    = (exAlice LOBBY, store', [])
    ∧ getDoc store' "ABC123" = Some d'
    ∧ r_status d' = RoomPlaying
    ∧ r_players d' !! "carol"
      = Some (mkPlayer (Some "carol") (Some "Carol") (Some 0) (Some false)
                (Some PReady))
    ∧ ¬ allReset PPlaying d'.
Proof.
  eexists _, _. split; [vm_compute; reflexivity|].
  split; [vm_compute; reflexivity|].
  split; [reflexivity|].
  assert (Hcarol : ∀ d,
            r_players d !! "carol"
            = Some (mkPlayer (Some "carol") (Some "Carol") (Some 0)
                      (Some false) (Some PReady)) →
            ¬ allReset PPlaying d).
  { intros d Hc Hall. by destruct (Hall _ _ Hc). }
  split; [vm_compute; reflexivity|].
  apply Hcarol. vm_compute. reflexivity.
Defined.

(** Bob's three updates: reports at 3000 and 5500, none at 4000. *)
Lemma score_report_throttled_witness :
  reportTimes (runClient (exBob PLAYING) exRefs exUpdates) = [3000; 5500]
  ∧ SCORE_SYNC_INTERVAL_MS < 5500 - 3000
  ∧ (handleScoreUpdate (exBob PLAYING) (exBob PLAYING) (mkRefs 3000 exScore)
       4000 (mkScore 20 0 0 3)).2 = []
  ∧ (handleScoreUpdate (exBob PLAYING) (exBob PLAYING) (mkRefs 3000 exScore)
       5500 (mkScore 30 0 1 3)).2
    = [E_updateDoc "ABC123" [SetPlayerScore "bob" 30]].
Proof.
  assert (Hne : "ABC123" ≠ "") by discriminate.
  assert (Hu : userId (exBob PLAYING) ≠ "") by discriminate.
  destruct score_report_throttled as (Hone & Hgap & _).
  split; [reflexivity|]. split; [|split].
  - apply (Hgap (exBob PLAYING) exRefs exUpdates 0%nat 1%nat 3000 5500);
      [lia|reflexivity|reflexivity].
  - destruct (Hone (exBob PLAYING) (exBob PLAYING) (mkRefs 3000 exScore) 4000
                (mkScore 20 0 0 3) "ABC123" eq_refl Hne Hu)
      as (st' & _ & _ & Hskip).
    rewrite Hskip; [reflexivity|]. unfold SCORE_SYNC_INTERVAL_MS. cbn. lia.
  - destruct (Hone (exBob PLAYING) (exBob PLAYING) (mkRefs 3000 exScore) 5500
                (mkScore 30 0 1 3) "ABC123" eq_refl Hne Hu)
      as (st' & _ & Hwrite & _).
    rewrite Hwrite; [reflexivity|]. unfold SCORE_SYNC_INTERVAL_MS. cbn. lia.
Defined.

(** After the error Bob has no room, whatever arrives next. *)
Lemma subscription_error_abandons_room_witness :
  Forall (λ '(before, ev, after, e),
            roomId after = None ∧ (roomListener after after).2 = None)
    (runClient (onSnapshotError (exBob PLAYING)).1 exRefs
       [EvSnapshot 6000 (Some exPlaying); EvEnterLobby;
        EvScoreUpdate 7000 exScore]).
Proof.
  destruct (subscription_error_abandons_room (exBob PLAYING))
    as (_ & _ & _ & _ & _ & Hrun).
  apply Hrun. repeat constructor; intros [].
Defined.

(** Carol creates a room and joins it again: no host is left. *)
Lemma creator_rejoin_drops_host_witness :
  let created :=
    handleCreateRoom exCarol exCarol ∅ "ABC123" 1000 "Carol" in
  let joined :=
    handleJoinRoom exCarol exCarol created.1.2 "ABC123" "Carol again" in
  ∃ d, getDoc joined.1.2 "ABC123" = Some d ∧ hostCount d = 0%nat
       ∧ hostLogic exCarol "ABC123" 999999 d = [].
Proof.
  intros created joined.
  assert (Hu : userId exCarol ≠ "") by discriminate.
  destruct (creator_rejoin_drops_host exCarol exCarol exCarol exCarol ∅
              "ABC123" 1000 "Carol" "Carol again" Hu eq_refl)
    as (_ & d & Hg & _ & Hc & Hperm).
  exists d. split; [exact Hg|]. split; [exact Hc|].
  apply Hperm. constructor.
Defined.

(** The scenario runs as the specification tells it. *)
Example scenario_runs :
  scenario
  = ((PLAYING, PLAYING),
     (SPECTATING, Some RoomPlaying),
     Some RoomFinished,
     (GAME_OVER, SPECTATING, GAME_OVER),
     Some (Some PCrashed, Some PFinished, Some 40, Some 70)).
Proof. vm_compute. reflexivity. Qed.

(** * Further properties *)

Lemma hostLogic_issued (c : AppState) (rid : string) (now : Z)
    (data : RoomData) (x : Effect) :
  x ∈ hostLogic c rid now data →
  x = finishWrite rid ∧ userId c ≠ "" ∧ myIsHost (userId c) data = true
  ∧ r_status data = RoomPlaying
  ∧ (timedOut now data ∨ activePlayersCount data = 0%nat).
Proof.
  unfold hostLogic.
  destruct (truthyStr (userId c)) eqn:Hu; cbn [andb];
    [|intros Hx; by apply not_elem_of_nil in Hx].
  destruct (myIsHost (userId c) data) eqn:Hh; cbn [andb];
    [|intros Hx; by apply not_elem_of_nil in Hx].
  destruct (bool_decide (r_status data = RoomPlaying)) eqn:Hs;
    [|intros Hx; by apply not_elem_of_nil in Hx].
  destruct (timeIsUp now data || bool_decide (activePlayersCount data = 0%nat))
    eqn:Hb; [|intros Hx; by apply not_elem_of_nil in Hx].
  intros Hx%list_elem_of_singleton.
  apply truthyStr_true in Hu. apply bool_decide_eq_true in Hs.
  split_and!; try done.
  apply orb_true_iff in Hb as [Hb|Hb].
  - left. by apply timeIsUp_true.
  - right. by apply bool_decide_eq_true in Hb.
Qed.

Lemma handleGameOver_write (c st : AppState) (f : GameScore) (rid : string)
    (ups : list FieldUpdate) :
  E_updateDoc rid ups ∈ (handleGameOver c st f).2 →
  inRoom c rid
  ∧ ups = [SetPlayerScore (userId c) (current f);
           SetPlayerStatus (userId c)
             (if 0 <? lives f then PFinished else PCrashed)].
Proof.
  unfold handleGameOver, inRoom.
  destruct (best (score c) <? current f);
    destruct (roomId c) as [rid'|];
    try (destruct (truthyStr rid') eqn:Hr; destruct (truthyStr (userId c)) eqn:Hu);
    cbn; intros Hin;
    repeat (apply elem_of_cons in Hin as [Heq | Hin];
            [try discriminate; injection Heq as -> ->;
             apply truthyStr_true in Hr, Hu; done|]);
    by apply not_elem_of_nil in Hin.
Qed.

(** Where a fire-and-forget write of a step comes from. *)
Lemma step_write_cases (st : AppState) (r : Refs) (ev : Event) (rid : string)
    (ups : list FieldUpdate) :
  E_updateDoc rid ups ∈ (step st r ev).2 →
  inRoom st rid
  ∧ ((∃ now data, ev = EvSnapshot now (Some data)
        ∧ E_updateDoc rid ups ∈ hostLogic st rid now data)
     ∨ (∃ f, ups = [SetPlayerScore (userId st) (current f);
                    SetPlayerStatus (userId st)
                      (if 0 <? lives f then PFinished else PCrashed)]
          ∧ (ev = EvGameOver f
             ∨ ∃ now data, ev = EvSnapshot now (Some data)
                 ∧ r_status data = RoomFinished ∧ gameState st = PLAYING
                 ∧ f = latestScoreRef r))
     ∨ (∃ now newScore, ev = EvScoreUpdate now newScore
          ∧ ups = [SetPlayerScore (userId st) (current newScore)]
          ∧ SCORE_SYNC_INTERVAL_MS < now - lastScoreSync r)).
Proof.
  destruct ev; cbn [step].
  - destruct (truthyId (roomId st)) eqn:Hroom.
    + destruct (truthyId_Some _ Hroom) as (rid' & Hrid & Hne).
      destruct snap as [data|].
      * rewrite (deliver_in_room _ _ _ _ rid') by done.
        unfold reconcile.
        destruct (r_status data) eqn:Hs;
          destruct (myStatus (userId st) data) as [[]|];
          destruct (gameState st) eqn:Hg; cbn -[hostLogic handleGameOver];
          try (intros Hin;
               try (apply elem_of_cons in Hin as [Heq|Hin]; [discriminate|]);
               destruct (hostLogic_issued st rid' now data _ Hin)
                 as (Heq & Hu & _);
               injection Heq as -> ->; split; [done|]; left; by eauto).
        all: pose proof (handleGameOver_write st (setRoomData (Some data) st)
                           (latestScoreRef r) rid ups) as Hgo;
          destruct (handleGameOver st _ _) as [st' e]; cbn in Hgo |- *;
          intros [Hin|Hin]%elem_of_app;
          [destruct (Hgo Hin) as [Hroom' ->]; split; [done|];
           right; left; eexists; split; [done|]; right; by eauto 10
          |destruct (hostLogic_issued st rid' now data _ Hin)
             as (Heq & Hu & _ & Hp & _); congruence].
      * unfold deliver, roomListener. rewrite Hrid, (truthyStr_ne _ Hne).
        cbn. intros Hin. by apply not_elem_of_nil in Hin.
    + rewrite deliver_no_room by done. cbn.
      intros Hin. by apply not_elem_of_nil in Hin.
  - unfold roomListener. destruct (roomId st) as [rid'|];
      [destruct (truthyStr rid')|]; cbn; intros Hin;
      try (by apply not_elem_of_nil in Hin).
    apply list_elem_of_singleton in Hin. discriminate.
  - unfold handleScoreUpdate.
    destruct (roomId st) as [rid'|] eqn:Hrid; cbn;
      [|intros Hin; by apply not_elem_of_nil in Hin].
    destruct (truthyStr rid') eqn:Hr; cbn;
      [|intros Hin; by apply not_elem_of_nil in Hin].
    destruct (truthyStr (userId st)) eqn:Hu; cbn;
      [|intros Hin; by apply not_elem_of_nil in Hin].
    destruct (Z.ltb_spec SCORE_SYNC_INTERVAL_MS (now - lastScoreSync r)); cbn;
      [|intros Hin; by apply not_elem_of_nil in Hin].
    intros Hin%list_elem_of_singleton. injection Hin as -> ->.
    apply truthyStr_true in Hr, Hu. split; [done|]. right. right. by eauto.
  - pose proof (handleGameOver_write st st finalScore rid ups) as Hgo.
    destruct (handleGameOver _ _ _) as [st' e]. cbn in Hgo |- *.
    intros Hin. destruct (Hgo Hin) as [Hroom ->]. split; [done|].
    right. left. by eauto.
  - unfold handleCreateRoom. destruct (negb _); cbn;
      intros Hin; by apply not_elem_of_nil in Hin.
  - unfold handleJoinRoom. destruct (negb _); cbn;
      [intros Hin; by apply not_elem_of_nil in Hin|].
    destruct (getDoc store id) as [data|]; cbn;
      [|intros Hin; apply list_elem_of_singleton in Hin; discriminate].
    destruct (_ <=? _); cbn;
      [intros Hin; apply list_elem_of_singleton in Hin; discriminate|].
    destruct (r_status data); try destruct (updateDoc _ _ _); cbn; intros Hin;
      try (by apply not_elem_of_nil in Hin);
      apply list_elem_of_singleton in Hin; discriminate.
  - unfold handleStartMatch.
    destruct (roomId st) as [rid'|], (roomData st) as [rd|]; cbn;
      try (intros Hin; by apply not_elem_of_nil in Hin).
    destruct (negb _); try destruct (updateDoc _ _ _); cbn; intros Hin;
      try (by apply not_elem_of_nil in Hin);
      apply list_elem_of_singleton in Hin; discriminate.
  - unfold handleRestartLobby.
    destruct (roomId st) as [rid'|], (roomData st) as [rd|]; cbn;
      try (intros Hin; by apply not_elem_of_nil in Hin).
    destruct (negb _); try destruct (updateDoc _ _ _); cbn; intros Hin;
      try (by apply not_elem_of_nil in Hin);
      apply list_elem_of_singleton in Hin; discriminate.
  - cbn. intros Hin. by apply not_elem_of_nil in Hin.
  - cbn. intros Hin. by apply not_elem_of_nil in Hin.
  - cbn. intros Hin. apply list_elem_of_singleton in Hin. discriminate.
  - cbn. intros Hin. by apply not_elem_of_nil in Hin.
Qed.



(** X2.  The round-end write comes from nowhere but the snapshot callback of
    a participant flagged host, on a snapshot of a playing room that is
    timed out or has no active player. *)
Theorem only_host_ends_round (st : AppState) (r : Refs) (ev : Event)
    (rid : string) :
  finishWrite rid ∈ (step st r ev).2 →
  ∃ now data, ev = EvSnapshot now (Some data) ∧ inRoom st rid
    ∧ myIsHost (userId st) data = true ∧ r_status data = RoomPlaying
    ∧ (timedOut now data ∨ activePlayersCount data = 0%nat).
Proof.
  intros Hin.
  destruct (step_write_cases st r ev rid _ Hin)
    as [Hroom [(now & data & -> & Hh)
              |[(f & Heq & _)|(now & sc & _ & Heq & _)]]];
    [|discriminate|discriminate].
  destruct (hostLogic_issued st rid now data _ Hh) as (_ & _ & Hhost & Hs & Hc).
  by eauto 10.
Qed.

(** What a step does to the two identifiers. *)
Lemma step_ids (st : AppState) (r : Refs) (ev : Event) :
  ∃ st' r' e, render (step st r ev) = (st', r', e)
    ∧ userId st' = userId st
    ∧ (roomId st' = roomId st ∨ roomId st' = None
       ∨ (entersRoom ev ∧ userId st ≠ "")).
Proof.
  destruct ev; cbn [step].
  - destruct (deliver st r now snap) as [[st' r'] e] eqn:Hd.
    destruct (deliver_frame st r now snap) as (st1 & r1 & e1 & Hd' & _ & Hr).
    rewrite Hd in Hd'. injection Hd' as <- <- <-.
    eexists _, _, _. split; [reflexivity|]. split; [|by left].
    revert Hd. destruct (truthyId (roomId st)) eqn:Hroom.
    + destruct (truthyId_Some _ Hroom) as (rid & Hrid & Hne).
      destruct snap as [data|].
      * rewrite (deliver_in_room _ _ _ _ rid) by done.
        destruct (reconcile _ _ _ _) as [ph []];
          cbn -[hostLogic handleGameOver].
        -- by intros [= <- _ _].
        -- destruct (handleGameOver_shape st (setRoomData (Some data) st)
                       latestKnownLocalScore) as (s2 & e2 & -> & _ & Hu & _).
           by intros [= <- _ _].
        -- by intros [= <- _ _].
      * unfold deliver, roomListener. rewrite Hrid, (truthyStr_ne _ Hne).
        by intros [= <- _ _].
    + rewrite deliver_no_room by done. by intros [= <- _ _].
  - unfold roomListener. destruct (roomId st) as [rid|] eqn:Hrid;
      [destruct (truthyStr rid)|]; eexists _, _, _;
      (split; [reflexivity|]); cbn; auto.
  - destruct (handleScoreUpdate_cases st st r now newScore)
      as (st' & r' & e & -> & _ & Hr & Hu & _).
    eexists _, _, _. split; [reflexivity|]. cbn. auto.
  - destruct (handleGameOver_shape st st finalScore)
      as (st' & e & -> & Hr & Hu & _).
    eexists _, _, _. split; [reflexivity|]. cbn. auto.
  - unfold handleCreateRoom. destruct (truthyStr (userId st)) eqn:Hu; cbn;
      eexists _, _, _; (split; [reflexivity|]); cbn; [|auto].
    apply truthyStr_true in Hu. split; [done|]. right. right. done.
  - unfold handleJoinRoom. destruct (truthyStr (userId st)) eqn:Hu; cbn;
      [|eexists _, _, _; (split; [reflexivity|]); cbn; auto].
    apply truthyStr_true in Hu.
    destruct (getDoc store id) as [data|]; cbn;
      [|eexists _, _, _; (split; [reflexivity|]); cbn; auto].
    destruct (_ <=? _); cbn;
      [eexists _, _, _; (split; [reflexivity|]); cbn; auto|].
    destruct (r_status data); try destruct (updateDoc _ _ _); cbn;
      eexists _, _, _; (split; [reflexivity|]); cbn; auto.
  - unfold handleStartMatch.
    destruct (roomId st) as [rid|] eqn:Hrid, (roomData st) as [rd|]; cbn;
      try (eexists _, _, _; (split; [reflexivity|]); cbn; by auto).
    destruct (negb _); try destruct (updateDoc _ _ _); cbn;
      eexists _, _, _; (split; [reflexivity|]); cbn; auto.
  - unfold handleRestartLobby.
    destruct (roomId st) as [rid|] eqn:Hrid, (roomData st) as [rd|]; cbn;
      try (eexists _, _, _; (split; [reflexivity|]); cbn; by auto).
    destruct (negb _); try destruct (updateDoc _ _ _); cbn;
      eexists _, _, _; (split; [reflexivity|]); cbn; auto.
  - eexists _, _, _. split; [reflexivity|]. cbn. auto.
  - eexists _, _, _. split; [reflexivity|]. cbn. auto.
  - eexists _, _, _. split; [reflexivity|]. cbn. auto.
  - eexists _, _, _. split; [reflexivity|]. cbn. auto.
Qed.

(** X3.  No handler changes the identifier of the client (the sign-in
    effect alone sets it), and in every run a client that has a room
    reference has an identifier: rooms are entered by create and join
    only, which return at once without one. *)
Theorem room_reference_needs_identifier (st : AppState) (r : Refs)
    (evs : list Event) :
  roomNeedsUser st →
  Forall (λ '(before, ev, after, e),
            userId after = userId st ∧ roomNeedsUser after)
    (runClient st r evs).
Proof.
  intros Hinv.
  assert (Hgen : ∀ evs s r, userId s = userId st → roomNeedsUser s →
            Forall (λ '(before, ev, after, e),
                      userId after = userId st ∧ roomNeedsUser after)
              (runClient s r evs)).
  { clear. induction evs as [|ev evs IH]; intros s r Hu Hs; [constructor|].
    cbn [runClient].
    destruct (step_ids s r ev) as (s' & r' & e & -> & Hu' & Hroom).
    assert (Hs' : roomNeedsUser s').
    { unfold roomNeedsUser in *. rewrite Hu'.
      destruct Hroom as [-> | [-> | [_ Hne]]]; [done|done|done]. }
    constructor; [split; [congruence|done]|].
    apply IH; [congruence|done]. }
  by apply Hgen.
Qed.

(** The local bookkeeping of [handleGameOver]. *)
Lemma handleGameOver_stats (c st : AppState) (f : GameScore) :
  ∃ st' e, handleGameOver c st f = (st', e)
    ∧ earnedXP st' = current f / 100 + coins f * 2
    ∧ totalXP st' = totalXP c + earnedXP st'
    ∧ level st' = totalXP st' / 1000 + 1
    ∧ score st' = (if best (score c) <? current f
                   then mkScore (current (score st)) (current f)
                          (coins (score st)) (lives (score st))
                   else score st)
    ∧ E_storageSet STORAGE_KEY_XP (totalXP st') ∈ e
    ∧ E_storageSet STORAGE_KEY_LEVEL (level st') ∈ e
    ∧ (E_storageSet STORAGE_KEY_HIGHSCORE (current f) ∈ e
       ↔ best (score c) < current f).
Proof.
  unfold handleGameOver.
  destruct (Z.ltb_spec (best (score c)) (current f)) as [Hlt|Hge];
    destruct (roomId c) as [rid|];
    try destruct (truthyStr rid && truthyStr (userId c));
    eexists _, _; (split; [reflexivity|]); cbn;
    split_and!; try done; try (by left); try (by right; left).
  all: split; intros H; try done; try lia.
  all: try (by right; right; left).
  all: repeat (apply elem_of_cons in H as [H|H]; [discriminate|]);
    by apply not_elem_of_nil in H.
Qed.


(** X4.  [handleGameOver] moves to the spectator phase exactly when the
    render it was created in has a room and an identifier, whatever the
    pending state, and to game over otherwise.  A callback of a render
    that has the pending room and identifier leaves a spectator in a
    room.  A callback of a render from before a leave or a subscription
    error still reports and leaves a spectator without a room: after the
    listener effect of the next render there is no subscription, no room
    data, and no overlay is mounted. *)
Theorem spectating_follows_callback_render (c st : AppState)
    (f : GameScore) :
  let st1 := (handleGameOver c st f).1 in
  (gameState st1 = SPECTATING ↔ ∃ rid, inRoom c rid)
  ∧ (gameState st1 = SPECTATING ∨ gameState st1 = GAME_OVER)
  ∧ roomId st1 = roomId st ∧ userId st1 = userId st
  ∧ (roomId c = roomId st → userId c = userId st → spectatorInRoom st1)
  ∧ (∀ rid, inRoom c rid → roomId st = None →
       roundReport rid (userId c) f ∈ (handleGameOver c st f).2
       ∧ gameState st1 = SPECTATING ∧ roomId st1 = None
       ∧ let st2 := (roomListener st1 st1).1 in
         (roomListener st1 st1).2 = None
         ∧ roomData st2 = None ∧ gameState st2 = SPECTATING
         ∧ overlays st2 = [] ∧ hud st2 = false).
Proof.
  intros st1. subst st1.
  destruct (handleGameOver_shape c st f) as (st1 & e & Hh & Hr & Hu & _ & Hg).
  rewrite Hh. cbn [fst snd].
  assert (Hiff : gameState st1 = SPECTATING ↔ ∃ rid, inRoom c rid).
  { rewrite Hg. split.
    - destruct (truthyId (roomId c)) eqn:Hroom; [|done].
      destruct (truthyStr (userId c)) eqn:Hus; [|done]. intros _.
      destruct (truthyId_Some _ Hroom) as (rid & Hrid & Hne).
      exists rid. apply truthyStr_true in Hus. done.
    - intros (rid & Hrid & Hne & Hus).
      rewrite Hrid. cbn. by rewrite !truthyStr_ne. }
  split_and!; [done| |done|done| |].
  - rewrite Hg. destruct (_ && _); auto.
  - intros Hrc Huc Hsp. apply Hiff in Hsp as (rid & Hrid & Hne & Hus).
    exists rid. unfold inRoom. rewrite Hr, Hu, <- Hrc, <- Huc. done.
  - intros rid Hin Hnone.
    assert (Hsp : gameState st1 = SPECTATING) by (apply Hiff; eauto).
    assert (Hr1 : roomId st1 = None) by congruence.
    destruct Hin as (Hrid & Hne & Hus).
    destruct (handleGameOver_in_room c st f rid Hrid Hne Hus)
      as (st1' & e0 & Hh' & _).
    rewrite Hh in Hh'. injection Hh' as -> ->.
    split; [apply elem_of_app; right; by left|].
    split; [done|]. split; [done|].
    unfold roomListener. rewrite Hr1. cbn [fst snd].
    unfold overlays, hud. cbn. rewrite Hsp. done.
Qed.

(** X5.  The best score follows the render a callback was created in.
    [handleScoreUpdate] keeps the pending best; [startGame] installs the
    best of its render; [handleGameOver] installs the final score when it
    beats the best of its render and keeps the pending best otherwise.
    With a callback of a render that has the pending best, none of them
    lowers it, and a game over leaves the larger of the best and the
    final score.  With a callback of an earlier render the best score can
    go down: a final score between the two replaces the pending best. *)
Theorem best_score_follows_callback_render (c st : AppState) (r : Refs)
    (now : Z) (f : GameScore) :
  let updated := (handleScoreUpdate c st r now f).1.1 in
  let started := (startGame c st r).1.1 in
  let over := (handleGameOver c st f).1 in
  best (score updated) = best (score st)
  ∧ best (score started) = best (score c)
  ∧ best (score over)
    = (if best (score c) <? current f then current f else best (score st))
  ∧ (best (score c) = best (score st) →
     best (score started) = best (score st)
     ∧ best (score over) = Z.max (best (score st)) (current f))
  ∧ (best (score c) < current f < best (score st) →
     best (score over) < best (score st)).
Proof.
  intros updated started over. subst updated started over.
  destruct (handleGameOver_stats c st f)
    as (st1 & e & -> & _ & _ & _ & Hsc & _).
  cbn [fst].
  assert (Hover : best (score st1)
                  = if best (score c) <? current f
                    then current f else best (score st)).
  { rewrite Hsc. by destruct (best (score c) <? current f). }
  split_and!.
  - unfold handleScoreUpdate.
    by destruct (roomId c) as [rid|]; [destruct (_ && _ && _)|].
  - done.
  - done.
  - intros Hb. split; [done|]. rewrite Hover, Hb.
    destruct (Z.ltb_spec (best (score st)) (current f)); lia.
  - intros [Hlo Hhi]. rewrite Hover.
    destruct (Z.ltb_spec (best (score c)) (current f)); lia.
Qed.


(** What one field write keeps, unless it flags a host. *)
Lemma applyField_keeps (d : RoomData) (f : FieldUpdate) :
  r_id (applyField d f) = r_id d
  ∧ r_createdAt (applyField d f) = r_createdAt d
  ∧ (∀ u, is_Some (r_players d !! u) →
       is_Some (r_players (applyField d f) !! u))
  ∧ (¬ grantsHost f → ∀ u, isHostIn (applyField d f) u → isHostIn d u).
Proof.
  unfold isHostIn.
  destruct f as [s|t|v p|v s|v z]; cbn; split_and!; try done.
  - intros u Hu. destruct (decide (u = v)) as [->|Hne];
      [by rewrite lookup_insert_eq|by rewrite lookup_insert_ne].
  - intros Hg u. destruct (decide (u = v)) as [->|Hne];
      [rewrite lookup_insert_eq; cbn; intros; by destruct Hg
      |by rewrite lookup_insert_ne].
  - intros u Hu. destruct (decide (u = v)) as [->|Hne];
      [by rewrite lookup_insert_eq|by rewrite lookup_insert_ne].
  - intros _ u. destruct (decide (u = v)) as [->|Hne];
      [|by rewrite lookup_insert_ne].
    rewrite lookup_insert_eq. unfold entryAt.
    by destruct (r_players d !! v).
  - intros u Hu. destruct (decide (u = v)) as [->|Hne];
      [by rewrite lookup_insert_eq|by rewrite lookup_insert_ne].
  - intros _ u. destruct (decide (u = v)) as [->|Hne];
      [|by rewrite lookup_insert_ne].
    rewrite lookup_insert_eq. unfold entryAt.
    by destruct (r_players d !! v).
Qed.

Lemma applyUpdates_keeps (d : RoomData) (ups : list FieldUpdate) :
  Forall (λ f, ¬ grantsHost f) ups →
  r_id (applyUpdates d ups) = r_id d
  ∧ r_createdAt (applyUpdates d ups) = r_createdAt d
  ∧ (∀ u, is_Some (r_players d !! u) →
       is_Some (r_players (applyUpdates d ups) !! u))
  ∧ (∀ u, isHostIn (applyUpdates d ups) u → isHostIn d u).
Proof.
  revert d. induction ups as [|f ups IH]; intros d Hups; [done|].
  apply Forall_cons in Hups as [Hf Hups].
  destruct (applyField_keeps d f) as (Hi & Hc & Hk & Hh).
  destruct (IH (applyField d f) Hups) as (Hi' & Hc' & Hk' & Hh').
  change (applyUpdates d (f :: ups))
    with (applyUpdates (applyField d f) ups).
  split_and!; [congruence|congruence|by auto|by auto].
Qed.

(** X7.  Whatever updates the clients apply, the document keeps its room
    code and creation time and loses no entry: leaving a room removes
    nothing. *)
Theorem document_keeps_identity_and_entries (d d' : RoomData) :
  evolves d d' →
  r_id d' = r_id d ∧ r_createdAt d' = r_createdAt d
  ∧ (∀ u, is_Some (r_players d !! u) → is_Some (r_players d' !! u))
  ∧ (size (r_players d) ≤ size (r_players d'))%nat.
Proof.
  intros Hev.
  assert (H3 : r_id d' = r_id d ∧ r_createdAt d' = r_createdAt d
               ∧ ∀ u, is_Some (r_players d !! u) → is_Some (r_players d' !! u)).
  { induction Hev as [d|d d1 d' (ups & Hups & ->) _ IH]; [done|].
    destruct (applyUpdates_keeps d ups (appUpdate_grants _ Hups))
      as (Hi & Hc & Hk & _).
    destruct IH as (Hi' & Hc' & Hk'). split_and!; [congruence|congruence|by auto]. }
  destruct H3 as (Hi & Hc & Hk). split_and!; try done.
  rewrite <- !size_dom. apply subseteq_size. intros u Hu. apply elem_of_dom. apply Hk.
  by apply elem_of_dom.
Qed.

(** X8.  No update of the clients flags a host: who is host after any number
    of updates was host before, and a participant who was not never ends
    a round. *)
Theorem host_flag_never_granted (d d' : RoomData) :
  evolves d d' →
  (∀ u, isHostIn d' u → isHostIn d u)
  ∧ ∀ c rid now, ¬ isHostIn d (userId c) → hostLogic c rid now d' = [].
Proof.
  intros Hev.
  assert (Hh : ∀ u, isHostIn d' u → isHostIn d u).
  { induction Hev as [d|d d1 d' (ups & Hups & ->) _ IH]; [done|].
    destruct (applyUpdates_keeps d ups (appUpdate_grants _ Hups))
      as (_ & _ & _ & Hh).
    by auto. }
  split; [done|]. intros c rid now Hno. unfold hostLogic, myIsHost.
  destruct (r_players d' !! userId c ≫= p_isHost) as [[]|] eqn:Hp;
    rewrite ?andb_false_r; try done.
  destruct Hno. by apply Hh.
Qed.

(** X9.  The capacity of a room is checked on the document the join
    reads, and the entry is written to the document as it is by then.  A
    join adds at most one entry, and only when the document read was
    below [MAX_PLAYERS_PER_ROOM] and not playing; no entry is lost and the
    other rooms are not touched.  When no other client has written in
    between, a room within the capacity stays within it; a join that read
    a room below the capacity adds its entry all the same to a room that
    has filled up in between, which takes it over the capacity. *)
Theorem join_capacity_is_best_effort (c st : AppState)
    (store store' : gmap string RoomData) (id playerName : string)
    (d d1 : RoomData) :
  getDoc store id = Some d → getDoc store' id = Some d1 →
  let res := handleJoinRoom_interleaved c st store store' id playerName in
  handleJoinRoom c st store id playerName
  = handleJoinRoom_interleaved c st store store id playerName
  ∧ ∃ d', getDoc res.1.2 id = Some d'
      ∧ (size (r_players d1) ≤ size (r_players d')
         ≤ S (size (r_players d1)))%nat
      ∧ (∀ u, is_Some (r_players d1 !! u) → is_Some (r_players d' !! u))
      ∧ (size (r_players d') = S (size (r_players d1)) →
         Z.of_nat (size (r_players d)) < MAX_PLAYERS_PER_ROOM
         ∧ r_status d ≠ RoomPlaying ∧ r_players d1 !! userId c = None)
      ∧ (d1 = d → Z.of_nat (size (r_players d)) ≤ MAX_PLAYERS_PER_ROOM →
         Z.of_nat (size (r_players d')) ≤ MAX_PLAYERS_PER_ROOM)
      ∧ (userId c ≠ "" →
         Z.of_nat (size (r_players d)) < MAX_PLAYERS_PER_ROOM →
         r_status d ≠ RoomPlaying → r_players d1 !! userId c = None →
         size (r_players d') = S (size (r_players d1)))
      ∧ (∀ id', id' ≠ id → getDoc res.1.2 id' = getDoc store' id').
Proof.
  intros Hd Hd1 res. subst res. split; [reflexivity|].
  unfold handleJoinRoom_interleaved.
  destruct (truthyStr (userId c)) eqn:Hu; cbn [negb fst snd].
  2: { exists d1. split; [done|]. split; [lia|]. split; [done|].
       split; [lia|]. split; [by intros ->|]. split; [|done].
       intros Hne. apply truthyStr_true in Hne. congruence. }
  rewrite Hd, length_Object_keys.
  destruct (Z.leb_spec MAX_PLAYERS_PER_ROOM (Z.of_nat (size (r_players d))))
    as [Hfull|Hroom]; cbn [fst snd].
  { exists d1. split; [done|]. split; [lia|]. split; [done|].
    split; [lia|]. split; [by intros ->|]. split; [|done]. intros; lia. }
  destruct (r_status d) eqn:Hs; rewrite ?(updateDoc_Some _ _ _ _ Hd1);
    cbn [fst snd].
  2: { exists d1. split; [done|]. split; [lia|]. split; [done|].
       split; [lia|]. split; [by intros ->|]. split; [|done]. done. }
  all: eexists; (split; [apply lookup_insert_eq|]);
    cbn [applyUpdates foldl applyField r_players withPlayers];
    (split; [|split; [|split; [|split; [|split]]]]).
  all: try (intros id' Hid; unfold getDoc; by rewrite lookup_insert_ne).
  all: try (intros u Hu'; destruct (decide (u = userId c)) as [->|Hne];
            [rewrite lookup_insert_eq; by eauto|by rewrite lookup_insert_ne]).
  all: destruct (r_players d1 !! userId c) as [q|] eqn:Hq;
    [rewrite map_size_insert_Some by (rewrite Hq; eauto)
    |rewrite map_size_insert_None by done].
  all: try lia; try done.
  all: try (intros; split_and!; [lia|done|done]).
  all: try (intros -> ?; lia).
Qed.

(** X10.  Without an identifier [handleCreateRoom] does nothing.  With one it
    stores, under the new code and in place of whatever was there, a
    waiting room without start time whose only entry is the creator,
    flagged host, ready, score 0; the other rooms stay; the creator is in
    the lobby of the new room, and its first snapshot of the room changes
    nothing but [roomData]. *)
Theorem create_stores_a_fresh_room (c st : AppState)
    (store : gmap string RoomData) (newRoomId : string) (now : Z)
    (playerName : string) :
  let res := handleCreateRoom c st store newRoomId now playerName in
  (userId c = "" → res = (st, store, []))
  ∧ (userId c ≠ "" →
     res.2 = []
     ∧ res.1.1 = setGameState LOBBY (setRoomId (Some newRoomId) st)
     ∧ ∃ d, getDoc res.1.2 newRoomId = Some d
         ∧ r_id d = newRoomId ∧ r_createdAt d = now
         ∧ r_status d = RoomWaiting ∧ r_startTime d = Undefined
         ∧ r_players d !! userId c
           = Some (mkPlayer (Some (userId c)) (Some playerName) (Some 0)
                     (Some true) (Some PReady))
         ∧ (∀ u, u ≠ userId c → r_players d !! u = None)
         ∧ size (r_players d) = 1%nat ∧ hostCount d = 1%nat
         ∧ (∀ id', id' ≠ newRoomId → getDoc res.1.2 id' = getDoc store id')
         ∧ (newRoomId ≠ "" →
            ∀ r now',
              deliver res.1.1 r now' (Some d)
              = (setRoomData (Some d) res.1.1, r, []))).
Proof.
  intros res. subst res. unfold handleCreateRoom. split.
  - intros ->. done.
  - intros Hu. rewrite (truthyStr_ne _ Hu). cbn [negb fst snd].
    split_and!; [done|done|].
    eexists. split; [apply lookup_insert_eq|]. cbn.
    split_and!; try done.
    + apply lookup_singleton_eq.
    + intros u Hne. by apply lookup_singleton_ne.
    + apply map_size_singleton.
    + unfold hostCount, Object_values. cbn. by rewrite map_to_list_singleton.
    + intros id' Hne. unfold getDoc, setDoc. by rewrite lookup_insert_ne.
    + intros Hne r now'.
      rewrite (deliver_in_room _ _ _ _ newRoomId) by done.
      unfold reconcile. cbn -[hostLogic].
      by rewrite hostLogic_not_playing.
Qed.

(** X11.  [handleStartMatch] and [handleRestartLobby] never change the local
    state and never touch a room other than the caller's.  Without
    [roomData] or without a room they do nothing; when the room document
    does not exist the write is rejected, the store stays as it is and the
    error is logged. *)
Theorem round_actions_leave_the_rest (c st : AppState)
    (store : gmap string RoomData) (now : Z) :
  let started := handleStartMatch c st store now in
  let restarted := handleRestartLobby c st store in
  started.1.1 = st ∧ restarted.1.1 = st
  ∧ (∀ id', roomId c ≠ Some id' →
       getDoc started.1.2 id' = getDoc store id'
       ∧ getDoc restarted.1.2 id' = getDoc store id')
  ∧ (roomData c = None ∨ truthyId (roomId c) = false →
     started = (st, store, []) ∧ restarted = (st, store, []))
  ∧ (∀ rid, roomId c = Some rid → rid ≠ "" → is_Some (roomData c) →
     getDoc store rid = None →
     started = (st, store, [E_consoleError "Error starting match:"])
     ∧ restarted = (st, store, [E_consoleError "Error restarting lobby:"])).
Proof.
  intros started restarted. subst started restarted.
  unfold handleStartMatch, handleRestartLobby, updateDoc, getDoc.
  destruct (roomId c) as [rid|] eqn:Hrid;
    [|split_and!; intros; try done; try congruence].
  destruct (roomData c) as [rd|] eqn:Hrd;
    [|split_and!; intros; try done; try congruence;
      by match goal with H : is_Some None |- _ => destruct H end].
  destruct (truthyStr rid) eqn:Ht; cbn [negb truthyId].
  - destruct (store !! rid) as [d|] eqn:Hd; cbn [fst snd].
    + split_and!; intros; try done; try congruence.
      * rewrite !lookup_insert_ne by congruence. done.
      * rewrite Ht in *. by destruct_or!.
    + split_and!; intros; try done; try congruence.
      rewrite Ht in *. by destruct_or!.
  - split_and!; intros; try done; try congruence.
    match goal with H : Some _ = Some _ |- _ => injection H as <- end.
    match goal with H : rid ≠ "" |- _ => apply truthyStr_true in H end.
    congruence.
Qed.

(** X12.  After a match start every participant the starter's snapshot lists,
    and every joiner it does not list yet (still ready), is started by
    the next snapshot when in the lobby, spectating or on the game-over
    screen: fresh score, full lives, the best score kept.  A participant
    who is playing or in the menu is left alone: its running game is not
    reset. *)
Theorem match_start_reaches_every_member (st : AppState) (r : Refs)
    (rid : string) (d rd : RoomData) (now now' : Z) :
  inRoom st rid →
  is_Some (r_players rd !! userId st)
  ∨ (r_players rd !! userId st = None ∧ myStatus (userId st) d = Some PReady) →
  let d' := applyUpdates d (startMatchUpdates now rd) in
  (gameState st = LOBBY ∨ gameState st = SPECTATING
   ∨ gameState st = GAME_OVER →
   ∃ st' r' e, deliver st r now' (Some d') = (st', r', e)
     ∧ gameState st' = PLAYING
     ∧ score st' = mkScore 0 (best (score st)) 0 INITIAL_LIVES
     ∧ latestScoreRef r' = score st' ∧ lastScoreSync r' = lastScoreSync r
     ∧ roomData st' = Some d' ∧ E_audioStart ∈ e)
  ∧ (gameState st = PLAYING ∨ gameState st = MENU →
     deliver st r now' (Some d')
     = (setRoomData (Some d') st, r, hostLogic st rid now' d')).
Proof.
  intros (Hrid & Hne & Hu) Hmember d'.
  destruct (roundUpdates_spec d rd RoomPlaying (Num now) PPlaying)
    as (Hs & _ & _ & _ & Hin & Hout).
  fold (startMatchUpdates now rd) in Hs, Hin, Hout. fold d' in Hs, Hin, Hout.
  assert (Hmine : myStatus (userId st) d' = Some PPlaying
                  ∨ myStatus (userId st) d' = Some PReady).
  { unfold myStatus in *. destruct Hmember as [Hl | [Hn Hr]].
    - left. by rewrite Hin.
    - right. by rewrite Hout. }
  rewrite (deliver_in_room _ _ _ _ rid) by done.
  unfold reconcile. rewrite Hs. split.
  - intros Hg.
    destruct Hmine as [-> | ->]; destruct Hg as [-> | [-> | ->]];
      cbn -[hostLogic]; eexists _, _, _; (split; [reflexivity|]);
      split_and!; try done; by left.
  - intros Hg.
    destruct Hmine as [-> | ->]; destruct st as [g sc x lv ex uid rid' rdt];
      cbn in Hg |- *; destruct Hg as [-> | ->]; reflexivity.
Qed.

(** X13.  After a lobby restart the next snapshot takes a participant from
    the game-over screen or the spectator view back to the lobby and does
    nothing else: nobody is started, nothing is written, and a participant
    still playing keeps playing. *)
Theorem lobby_restart_returns_to_lobby (st : AppState) (r : Refs)
    (rid : string) (d rd : RoomData) (now : Z) :
  roomId st = Some rid → rid ≠ "" →
  let d' := applyUpdates d (restartLobbyUpdates rd) in
  deliver st r now (Some d')
  = (setGameState (match gameState st with
                   | GAME_OVER | SPECTATING => LOBBY
                   | g => g
                   end) (setRoomData (Some d') st), r, []).
Proof.
  intros Hrid Hne d'.
  destruct (roundUpdates_spec d rd RoomWaiting Null PReady) as (Hs & _).
  fold (restartLobbyUpdates rd) in Hs. fold d' in Hs.
  rewrite (deliver_in_room _ _ _ _ rid) by done.
  rewrite (hostLogic_not_playing st rid) by congruence.
  unfold reconcile. rewrite Hs. by destruct (gameState st).
Qed.

(** X14.  The round result a participant reports takes it out of the round:
    in the document that holds the report its own entry is finished or
    crashed, and a snapshot of that document, the room still playing,
    leaves it spectating and starts nothing. *)
Theorem round_report_keeps_reporter_out (st : AppState) (rid : string)
    (f : GameScore) (d : RoomData) :
  inRoom st rid → r_status d = RoomPlaying →
  ∃ st1 e0 ups,
    handleGameOver st st f = (st1, e0 ++ [E_updateDoc rid ups])
    ∧ localOnly e0 ∧ gameState st1 = SPECTATING
    ∧ let d1 := applyUpdates d ups in
      r_status d1 = RoomPlaying ∧ outOfRound (userId st) d1
      ∧ r_players d1 !! userId st ≫= p_score = Some (current f)
      ∧ ∀ r now,
          deliver st1 r now (Some d1)
          = (setRoomData (Some d1) st1, r, hostLogic st1 rid now d1).
Proof.
  intros (Hrid & Hne & Hu) Hs.
  destruct (handleGameOver_in_room st st f rid Hrid Hne Hu)
    as (st1 & e0 & Hh & Hloc & Hg & Hr1 & Hu1).
  exists st1, e0, [SetPlayerScore (userId st) (current f);
                   SetPlayerStatus (userId st)
                     (if 0 <? lives f then PFinished else PCrashed)].
  split; [exact Hh|]. split; [done|]. split; [done|].
  destruct (roundReport_on_document d (userId st) (current f)
              (if 0 <? lives f then PFinished else PCrashed))
    as (Hme & _ & Hs1 & _).
  cbn zeta in Hme, Hs1 |- *.
  assert (Hout : outOfRound (userId st)
                   (applyUpdates d
                      [SetPlayerScore (userId st) (current f);
                       SetPlayerStatus (userId st)
                         (if 0 <? lives f then PFinished else PCrashed)])).
  { unfold outOfRound, myStatus. rewrite Hme. cbn.
    destruct (0 <? lives f); by auto. }
  split_and!; [congruence|done|by rewrite Hme|].
  intros r now. unfold deliver, roomListener.
  rewrite Hr1, Hrid, (truthyStr_ne _ Hne).
  apply onSnapshotNext_out_of_round; [congruence|by rewrite Hu1].
Qed.

(** The host keeps its flag through a round report. *)
Lemma roundReport_keeps_host (d : RoomData) (u v : string) (z : Z)
    (s : PlayerStatus) :
  isHostIn d v →
  isHostIn (applyUpdates d [SetPlayerScore u z; SetPlayerStatus u s]) v.
Proof.
  unfold isHostIn.
  destruct (roundReport_on_document d u z s) as (Hme & Hothers & _).
  cbn zeta in Hme, Hothers. intros Hh.
  destruct (decide (v = u)) as [->|Hne]; [|by rewrite Hothers].
  rewrite Hme. cbn. unfold entryAt.
  by destruct (r_players d !! u).
Qed.

(** X15.  The report of the last player still playing ends the round: in the
    document that holds the report nobody is playing, so the next snapshot
    of the host issues the round-end write, whatever the clock says; and
    once the room is finished no snapshot makes anyone issue it again. *)
Theorem last_report_ends_round (st h : AppState) (r : Refs) (rid : string)
    (f : GameScore) (d : RoomData) (now : Z) :
  inRoom st rid → inRoom h rid → isHostIn d (userId h) →
  r_status d = RoomPlaying →
  (∀ v q, v ≠ userId st → r_players d !! v = Some q →
          p_status q ≠ Some PPlaying) →
  ∃ ups, E_updateDoc rid ups ∈ (handleGameOver st st f).2
    ∧ let d1 := applyUpdates d ups in
      activePlayersCount d1 = 0%nat
      ∧ finishWrite rid ∈ (deliver h r now (Some d1)).2
      ∧ let d2 := applyUpdates d1 [SetStatus RoomFinished] in
        r_status d2 = RoomFinished ∧ r_players d2 = r_players d1
        ∧ ∀ c rid' now', hostLogic c rid' now' d2 = [].
Proof.
  intros (Hrid & Hne & Hu) (Hhrid & _ & Hhu) Hhost Hs Hrest.
  destruct (handleGameOver_in_room st st f rid Hrid Hne Hu)
    as (st1 & e0 & Hh & _).
  set (s := if 0 <? lives f then PFinished else PCrashed).
  exists [SetPlayerScore (userId st) (current f); SetPlayerStatus (userId st) s].
  split.
  { rewrite Hh. cbn [snd]. apply elem_of_app. right. by left. }
  destruct (roundReport_on_document d (userId st) (current f) s)
    as (Hme & Hothers & Hs1 & _).
  pose proof (roundReport_keeps_host d (userId st) (userId h) (current f) s
                Hhost) as Hhost1.
  cbn zeta in Hme, Hothers, Hs1 |- *.
  set (d1 := applyUpdates d _) in *.
  assert (Hzero : activePlayersCount d1 = 0%nat).
  { apply activePlayersCount_zero. intros v q Hq.
    destruct (decide (v = userId st)) as [->|Hv].
    - rewrite Hme in Hq. injection Hq as <-. cbn. subst s.
      by destruct (0 <? lives f).
    - rewrite Hothers in Hq by done. by apply (Hrest v). }
  split_and!; [done| |done|done|].
  - unfold isHostIn in Hhost1.
    destruct (r_players d1 !! userId h) as [p|] eqn:Hp; [|done].
    assert (Hs1' : r_status d1 = RoomPlaying) by congruence.
    apply (proj2 (host_round_end_gen h r rid now d1 p
                    Hhrid Hne Hhu Hp Hhost1 Hs1')).
    by right.
  - intros c rid' now'. by apply hostLogic_not_playing.
Qed.

(** X16.  Leaving a room is local, so an entry left at ['playing']
    blocks the round end by attrition.  After the leave and the listener
    effect of the next render the client has no room, no room data and
    no subscription.  A callback of a render without a room writes to no
    document: score updates, game overs, snapshots, match starts and
    lobby restarts leave every store as it is.  A join to the room is
    refused while the document read is playing, and a create under
    another code leaves the room alone.  A game over handled by a
    callback from before the leave still reports.  And while an entry has
    status ['playing'], the host ends the round exactly when the time is
    up. *)
Theorem leaver_blocks_attrition (st h c : AppState) (rid : string)
    (d : RoomData) (q : PlayerData) :
  inRoom h rid → isHostIn d (userId h) → r_status d = RoomPlaying →
  r_players d !! userId st = Some q → p_status q = Some PPlaying →
  roomId c = None →
  let gone := (roomListener (handleLeaveRoom st) (handleLeaveRoom st)).1 in
  (roomId gone = None ∧ roomData gone = None ∧ gameState gone = MENU
   ∧ userId gone = userId st
   ∧ (roomListener (handleLeaveRoom st) (handleLeaveRoom st)).2 = None)
  ∧ (∀ p r now f store snap,
       (handleScoreUpdate c p r now f).2 = []
       ∧ commitAll store (handleGameOver c p f).2 = store
       ∧ (deliver c r now snap).2 = []
       ∧ (handleStartMatch c p store now).1.2 = store
       ∧ (handleRestartLobby c p store).1.2 = store)
  ∧ (∀ cj p store store' playerName, getDoc store rid = Some d →
       (handleJoinRoom_interleaved cj p store store' rid playerName).1.2
       = store')
  ∧ (∀ cj p store newRoomId now playerName, newRoomId ≠ rid →
       getDoc (handleCreateRoom cj p store newRoomId now playerName).1.2 rid
       = getDoc store rid)
  ∧ (∀ f, inRoom st rid →
       roundReport rid (userId st) f ∈ (handleGameOver st gone f).2)
  ∧ (∀ rh now, finishWrite rid ∈ (deliver h rh now (Some d)).2
               ↔ timedOut now d).
Proof.
  intros (Hhrid & Hne & Hhu) Hhost Hs Hq Hplaying Hc gone. subst gone.
  split; [|split; [|split; [|split; [|split]]]].
  - by destruct st.
  - intros p r now f store snap.
    split; [|split; [|split; [|split]]].
    + unfold handleScoreUpdate. by rewrite Hc.
    + unfold handleGameOver. rewrite Hc.
      by destruct (best (score c) <? current f).
    + rewrite deliver_no_room; [done|]. by rewrite Hc.
    + unfold handleStartMatch. by rewrite Hc.
    + unfold handleRestartLobby. by rewrite Hc.
  - intros cj p store store' playerName Hd.
    unfold handleJoinRoom_interleaved.
    destruct (negb _); [done|]. rewrite Hd, Hs.
    by destruct (_ <=? _).
  - intros cj p store newRoomId now playerName Hnew.
    unfold handleCreateRoom. destruct (negb _); [done|].
    cbn [fst snd]. unfold getDoc, setDoc. by rewrite lookup_insert_ne.
  - intros f (Hrid & _ & Hu).
    destruct (handleGameOver_in_room st
                (roomListener (handleLeaveRoom st) (handleLeaveRoom st)).1
                f rid Hrid Hne Hu) as (st1 & e0 & -> & _).
    cbn [snd]. apply elem_of_app. right. by left.
  - intros rh now. unfold isHostIn in Hhost.
    destruct (r_players d !! userId h) as [p|] eqn:Hp; [|done].
    pose proof (host_round_end_gen h rh rid now d p
                  Hhrid Hne Hhu Hp Hhost Hs) as Hend.
    split; [|intros Ht; apply Hend; by left].
    intros [Ht|Hz]%Hend; [done|].
    rewrite activePlayersCount_zero in Hz. by destruct (Hz _ _ Hq).
Qed.

(** X17.  Every callback reads its render through its dependency list only:
    [handleScoreUpdate] through [roomId] and [userId], [handleGameOver]
    through these, [totalXP] and [score.best], [startGame] through
    [score.best], the snapshot callback through the dependencies of its
    effect.  Two renders that agree on the list give the same callback. *)
Theorem callbacks_read_their_dependencies (c c' st : AppState) (r : Refs)
    (now : Z) (f : GameScore) :
  roomId c = roomId c' → userId c = userId c' →
  (handleScoreUpdate c st r now f = handleScoreUpdate c' st r now f)
  ∧ (best (score c) = best (score c') →
     startGame c st r = startGame c' st r
     ∧ (totalXP c = totalXP c' →
        handleGameOver c st f = handleGameOver c' st f
        ∧ (gameState c = gameState c' →
           ∀ rid snap, onSnapshotNext c rid st r now snap
                       = onSnapshotNext c' rid st r now snap))).
Proof.
  intros Hr Hu. split.
  - unfold handleScoreUpdate. by rewrite Hr, Hu.
  - intros Hb. split; [unfold startGame; by rewrite Hb|].
    intros Hx. split; [unfold handleGameOver; by rewrite Hr, Hu, Hx, Hb|].
    intros Hg rid snap. by apply onSnapshotNext_deps.
Qed.

(** X18.  [App] mounts at most one overlay, and none together with the HUD.
    No overlay at all is mounted while playing and while spectating
    without room data; after a game over the leaderboard is mounted in a
    room with room data and the single-player screen otherwise. *)
Theorem one_overlay_at_a_time (st : AppState) :
  (length (overlays st) ≤ 1)%nat
  ∧ (hud st = true → overlays st = [])
  ∧ (overlays st = [] ↔
     gameState st = PLAYING
     ∨ (gameState st = SPECTATING ∧ roomData st = None))
  ∧ (gameState st = GAME_OVER →
     overlays st = if truthyId (roomId st)
                      && bool_decide (is_Some (roomData st))
                   then [Leaderboard] else [GameOver]).
Proof.
  unfold overlays, hud.
  destruct (gameState st), (roomData st) as [rd|], (truthyId (roomId st));
    cbn; split_and!; try done; try lia;
    try (split; [done|]; intros [?|[? ?]]; done);
    try (split; [intros _|done]; by auto).
Qed.

(** * Further worked instances *)


(** Alice's round end after the three minutes comes from her snapshot
    callback, Alice being host. *)
Lemma only_host_ends_round_witness :
  ∃ now data,
    EvSnapshot (5000 + GAME_DURATION_MS + 1) (Some exCrashed)
    = EvSnapshot now (Some data)
    ∧ inRoom (exAlice SPECTATING) "ABC123"
    ∧ myIsHost "alice" data = true ∧ r_status data = RoomPlaying
    ∧ (timedOut now data ∨ activePlayersCount data = 0%nat).
Proof.
  apply (only_host_ends_round (exAlice SPECTATING) exRefs
           (EvSnapshot (5000 + GAME_DURATION_MS + 1) (Some exCrashed))
           "ABC123").
  vm_compute. left.
Defined.

(** Carol creates a room, leaves it and joins Alice's. *)
Lemma room_reference_needs_identifier_witness :
  Forall (λ '(before, ev, after, e),
            userId after = userId exCarol ∧ roomNeedsUser after)
    (runClient exCarol exRefs
       [EvCreateRoom ∅ "XYZ789" 2000 "Carol"; EvLeaveRoom;
        EvJoinRoom exStore "ABC123" "Carol"]).
Proof.
  apply room_reference_needs_identifier. intros _. discriminate.
Defined.

(** Bob leaves while playing, and the canvas ends his game through the
    callback of the render before: Bob spectates without a room, and no
    overlay is mounted. *)
Lemma spectating_follows_callback_render_witness :
  let st1 := (handleGameOver (exBob PLAYING) (handleLeaveRoom (exBob PLAYING))
                (mkScore 70 0 1 3)).1 in
  gameState st1 = SPECTATING ∧ roomId st1 = None
  ∧ overlays (roomListener st1 st1).1 = [].
Proof.
  intros st1.
  destruct (spectating_follows_callback_render (exBob PLAYING)
              (handleLeaveRoom (exBob PLAYING)) (mkScore 70 0 1 3))
    as (_ & _ & _ & _ & _ & Hstale).
  destruct (Hstale "ABC123") as (_ & Hg & Hr & _ & _ & _ & Ho & _).
  - split; [reflexivity|]. split; discriminate.
  - reflexivity.
  - split; [exact Hg|]. split; [exact Hr|exact Ho].
Defined.

(** Two game overs handled by callbacks of one render, in which the
    best score is 250: the first leaves 1200, the second, with 300
    points, takes the best score down to 300. *)
Lemma best_score_follows_callback_render_witness :
  let first := (handleGameOver (exCarolBest 250) (exCarolBest 250)
                  (mkScore 1200 0 0 0)).1 in
  let second := (handleGameOver (exCarolBest 250) first
                   (mkScore 300 0 0 0)).1 in
  best (score first) = 1200 ∧ best (score second) = 300
  ∧ best (score (handleGameOver first first (mkScore 300 0 0 0)).1) = 1200.
Proof.
  intros first second.
  destruct (best_score_follows_callback_render (exCarolBest 250)
              (exCarolBest 250) exRefs 0 (mkScore 1200 0 0 0))
    as (_ & _ & _ & Hfresh & _).
  destruct (Hfresh eq_refl) as [_ H1]. fold first in H1.
  destruct (best_score_follows_callback_render (exCarolBest 250) first exRefs 0
              (mkScore 300 0 0 0)) as (_ & _ & H2 & _).
  fold second in H2.
  destruct (best_score_follows_callback_render first first exRefs 0
              (mkScore 300 0 0 0)) as (_ & _ & _ & Hfresh3 & _).
  destruct (Hfresh3 eq_refl) as [_ H3].
  split; [rewrite H1; reflexivity|].
  split; [rewrite H2; reflexivity|].
  rewrite H3, H1. reflexivity.
Defined.


(** The room after the match start evolved from the waiting room. *)
Lemma document_keeps_identity_and_entries_witness :
  r_id exPlaying = r_id exRoom ∧ r_createdAt exPlaying = r_createdAt exRoom
  ∧ (∀ u, is_Some (r_players exRoom !! u) → is_Some (r_players exPlaying !! u))
  ∧ (size (r_players exRoom) ≤ size (r_players exPlaying))%nat.
Proof.
  apply document_keeps_identity_and_entries.
  apply rtc_once. exists (startMatchUpdates 5000 exRoom).
  split; [constructor|reflexivity].
Defined.

(** Bob was no host in the waiting room and ends no round later. *)
Lemma host_flag_never_granted_witness :
  hostLogic (exBob PLAYING) "ABC123" 999999 exCrashed = [].
Proof.
  destruct (host_flag_never_granted exRoom exCrashed) as [_ Hnever].
  - eapply rtc_l; [|apply rtc_once].
    + exists (startMatchUpdates 5000 exRoom). split; [constructor|reflexivity].
    + exists [SetPlayerScore "alice" 40; SetPlayerStatus "alice" PCrashed].
      split; [constructor|reflexivity].
  - apply Hnever. vm_compute. discriminate.
Defined.

(** Carol reads the room of Alice and Bob with two entries; by the time
    her write arrives the room holds thirty, and she is the thirty-first. *)
Lemma join_capacity_is_best_effort_witness :
  ∃ d', getDoc (handleJoinRoom_interleaved exCarol exCarol exStore
                  exFilledStore "ABC123" "Carol").1.2 "ABC123" = Some d'
    ∧ size (r_players d') = 31%nat
    ∧ MAX_PLAYERS_PER_ROOM < Z.of_nat (size (r_players d')).
Proof.
  destruct (join_capacity_is_best_effort exCarol exCarol exStore exFilledStore
              "ABC123" "Carol" exRoom exFull)
    as (_ & d' & Hg & _ & _ & _ & _ & Hrace & _).
  - vm_compute. reflexivity.
  - vm_compute. reflexivity.
  - exists d'. split; [exact Hg|].
    assert (Hsize : size (r_players d') = 31%nat).
    { rewrite Hrace.
      - vm_compute. reflexivity.
      - discriminate.
      - vm_compute. reflexivity.
      - discriminate.
      - vm_compute. reflexivity. }
    split; [exact Hsize|]. rewrite Hsize. vm_compute. reflexivity.
Defined.

(** Carol creates room ["XYZ789"]: one entry, one host. *)
Lemma create_stores_a_fresh_room_witness :
  ∃ d, getDoc (handleCreateRoom exCarol exCarol exStore "XYZ789" 2000
                 "Carol").1.2 "XYZ789" = Some d
    ∧ r_status d = RoomWaiting ∧ size (r_players d) = 1%nat
    ∧ hostCount d = 1%nat.
Proof.
  destruct (create_stores_a_fresh_room exCarol exCarol exStore "XYZ789" 2000
              "Carol") as [_ Hcreate].
  destruct Hcreate as (_ & _ & d & Hg & _ & _ & Hs & _ & _ & _ & Hn & Hc & _).
  - discriminate.
  - exists d. split; [exact Hg|]. split; [exact Hs|]. split; [exact Hn|exact Hc].
Defined.

(** Alice starts a match in a room whose document is gone. *)
Lemma round_actions_leave_the_rest_witness :
  handleStartMatch (exAlice LOBBY) (exAlice LOBBY) ∅ 5000
  = (exAlice LOBBY, ∅, [E_consoleError "Error starting match:"]).
Proof.
  destruct (round_actions_leave_the_rest (exAlice LOBBY) (exAlice LOBBY) ∅ 5000)
    as (_ & _ & _ & _ & Hgone).
  apply (Hgone "ABC123"); [reflexivity|discriminate|by eexists|reflexivity].
Defined.

(** Bob, in the lobby, is started by the snapshot that follows Alice's
    match start. *)
Lemma match_start_reaches_every_member_witness :
  ∃ st' r' e, deliver (exBob LOBBY) exRefs 5100 (Some exPlaying) = (st', r', e)
    ∧ gameState st' = PLAYING ∧ E_audioStart ∈ e.
Proof.
  destruct (match_start_reaches_every_member (exBob LOBBY) exRefs "ABC123"
              exRoom exRoom 5000 5100) as [Hstart _].
  - split; [reflexivity|]. split; discriminate.
  - left. by eexists.
  - destruct Hstart as (st' & r' & e & Hd & Hg & _ & _ & _ & _ & He);
      [left; reflexivity|].
    exists st', r', e. split; [exact Hd|]. split; [exact Hg|exact He].
Defined.

(** Alice, on the leaderboard, is back in the lobby after the restart. *)
Lemma lobby_restart_returns_to_lobby_witness :
  gameState
    (deliver exAliceOver exRefs 190000
       (Some (applyUpdates exFinished (restartLobbyUpdates exFinished)))).1.1
  = LOBBY.
Proof.
  rewrite (lobby_restart_returns_to_lobby exAliceOver exRefs "ABC123"
             exFinished exFinished 190000);
    [reflexivity|reflexivity|discriminate].
Defined.

(** Alice crashes with 40 points and stays out of the round. *)
Lemma round_report_keeps_reporter_out_witness :
  ∃ st1 e0 ups,
    handleGameOver (exAlice PLAYING) (exAlice PLAYING) (mkScore 40 0 0 0)
    = (st1, e0 ++ [E_updateDoc "ABC123" ups])
    ∧ gameState st1 = SPECTATING
    ∧ outOfRound "alice" (applyUpdates exPlaying ups).
Proof.
  destruct (round_report_keeps_reporter_out (exAlice PLAYING) "ABC123"
              (mkScore 40 0 0 0) exPlaying)
    as (st1 & e0 & ups & Hh & _ & Hg & _ & Hout & _).
  - split; [reflexivity|]. split; discriminate.
  - reflexivity.
  - exists st1, e0, ups. split; [exact Hh|]. split; [exact Hg|exact Hout].
Defined.

(** Alice has crashed; Bob, the last one playing, reports 70 points, and
    Alice's next snapshot ends the round at once. *)
Lemma last_report_ends_round_witness :
  ∃ ups,
    E_updateDoc "ABC123" ups
      ∈ (handleGameOver (exBob PLAYING) (exBob PLAYING) (mkScore 70 0 1 3)).2
    ∧ finishWrite "ABC123"
        ∈ (deliver (exAlice SPECTATING) exRefs 9000
             (Some (applyUpdates exCrashed ups))).2.
Proof.
  assert (Hplayers : r_players exCrashed
            = <["bob" := mkPlayer (Some "bob") (Some "Bob") (Some 0)
                           (Some false) (Some PPlaying)]>
                {[ "alice" := mkPlayer (Some "alice") (Some "Alice") (Some 40)
                                (Some true) (Some PCrashed) ]})
    by (vm_compute; reflexivity).
  destruct (last_report_ends_round (exBob PLAYING) (exAlice SPECTATING) exRefs
              "ABC123" (mkScore 70 0 1 3) exCrashed 9000)
    as (ups & Hin & _ & Hend & _).
  - split; [reflexivity|]. split; discriminate.
  - split; [reflexivity|]. split; discriminate.
  - vm_compute. reflexivity.
  - reflexivity.
  - intros v q Hv Hq. rewrite Hplayers in Hq.
    rewrite lookup_insert_ne in Hq by (intros <-; by apply Hv).
    apply lookup_singleton_Some in Hq as [_ <-]. discriminate.
  - exists ups. split; [exact Hin|exact Hend].
Defined.

(** Bob leaves while playing: he has no room and writes nothing from
    then on, his join is refused while the room is playing, and Alice
    does not end the round at 9000 and does after the three minutes. *)
Lemma leaver_blocks_attrition_witness :
  let gone := (roomListener (handleLeaveRoom (exBob PLAYING))
                 (handleLeaveRoom (exBob PLAYING))).1 in
  roomId gone = None ∧ roomData gone = None
  ∧ (handleScoreUpdate gone gone exRefs 9000 (mkScore 70 0 1 3)).2 = []
  ∧ (finishWrite "ABC123"
      ∉ (deliver (exAlice SPECTATING) exRefs 9000 (Some exCrashed)).2)
  ∧ finishWrite "ABC123"
      ∈ (deliver (exAlice SPECTATING) exRefs (5000 + GAME_DURATION_MS + 1)
           (Some exCrashed)).2.
Proof.
  intros gone.
  destruct (leaver_blocks_attrition (exBob PLAYING) (exAlice SPECTATING) gone
              "ABC123" exCrashed
              (mkPlayer (Some "bob") (Some "Bob") (Some 0) (Some false)
                 (Some PPlaying)))
    as ((Hr & Hd & _) & Hnone & _ & _ & _ & Hend).
  - split; [reflexivity|]. split; discriminate.
  - vm_compute. reflexivity.
  - reflexivity.
  - vm_compute. reflexivity.
  - reflexivity.
  - reflexivity.
  - split; [exact Hr|]. split; [exact Hd|].
    destruct (Hnone gone exRefs 9000 (mkScore 70 0 1 3) exStore None)
      as (Hscore & _).
    split; [exact Hscore|]. split.
    + intros Hin. apply Hend in Hin. destruct Hin as (T & HT & _ & Hlate).
      vm_compute in HT. injection HT as <-.
      unfold GAME_DURATION_MS in Hlate. lia.
    + apply Hend. exists 5000. split; [vm_compute; reflexivity|].
      split; [discriminate|]. unfold GAME_DURATION_MS. lia.
Defined.

(** Alice's score callback is the same in the lobby and while playing. *)
Lemma callbacks_read_their_dependencies_witness :
  handleScoreUpdate (exAlice LOBBY) (exAlice PLAYING) exRefs 3000
    (mkScore 10 0 0 3)
  = handleScoreUpdate (exAlice PLAYING) (exAlice PLAYING) exRefs 3000
      (mkScore 10 0 0 3).
Proof.
  apply (callbacks_read_their_dependencies (exAlice LOBBY) (exAlice PLAYING)
           (exAlice PLAYING) exRefs 3000 (mkScore 10 0 0 3));
    reflexivity.
Defined.

(** Alice after the round sees the leaderboard; Carol after a
    single-player game sees the game-over screen. *)
Lemma one_overlay_at_a_time_witness :
  overlays exAliceOver = [Leaderboard]
  ∧ overlays (setGameState GAME_OVER exCarol) = [GameOver].
Proof.
  destruct (one_overlay_at_a_time exAliceOver) as (_ & _ & _ & Ha).
  destruct (one_overlay_at_a_time (setGameState GAME_OVER exCarol))
    as (_ & _ & _ & Hc).
  split; [rewrite Ha; reflexivity|rewrite Hc; reflexivity].
Defined.
